(** * EP screener report: the scoring engine of [build_report.py]

    A shallow embedding of [src/build_report.py] and the properties of its
    scoring engine: metrics from a price history, the keyword news score,
    the composite score of a ticker, the rows collected by [build], their
    ranking and the universe diff.

    Python floats appear in every function.  The functions are written once
    over an interface [PyFloat] of the float operations the program uses;
    the interface has two instances:
    - [QFloat], exact rational arithmetic, where the laws of an ordered field
      are available (the general properties are proved there);
    - [B64], IEEE 754 binary64 with round-to-nearest-even, built on the
      specification of floats of the core library (concrete runs are
      evaluated there as CPython evaluates them). *)

From Stdlib Require Import ZArith QArith Qround Qminmax Lqa Lia Bool.
From Stdlib Require Import String Ascii List Permutation Sorted.
From Stdlib Require Import Floats.SpecFloat.
From stdpp Require Import base option list gmap strings sorting.

Local Open Scope Z_scope.

(** ** Python floats *)

(** The operations of [float] used by the program.  [flit n d] is the
    decimal literal [n/d]; [fround2 x] is [round(x, 2)]; [ftrunc x] is
    [int(x)], which raises on an infinity or a NaN ([None]). *)
Class PyFloat (F : Type) := {
  fadd : F -> F -> F;
  fsub : F -> F -> F;
  fmul : F -> F -> F;
  fdiv : F -> F -> F;
  fltb : F -> F -> bool;
  fleb : F -> F -> bool;
  flit : Z -> positive -> F;
  fround2 : F -> F;
  ftrunc : F -> option Z
}.

Declare Scope pyfloat_scope.
Delimit Scope pyfloat_scope with F.
Infix "+" := fadd : pyfloat_scope.
Infix "-" := fsub : pyfloat_scope.
Infix "*" := fmul : pyfloat_scope.
Infix "/" := fdiv : pyfloat_scope.
Infix "<?" := fltb : pyfloat_scope.
Infix "<=?" := fleb : pyfloat_scope.
Notation "x >=? y" := (fleb y x) (at level 70) : pyfloat_scope.
Notation "x >? y" := (fltb y x) (at level 70) : pyfloat_scope.

Section PyBuiltins.
Context {F : Type} `{PyFloat F}.

(** [min(a, b)] keeps [a] unless [b < a]; [max(a, b)] keeps [a] unless
    [b > a]. *)
Definition pymin (a b : F) : F := if (b <? a)%F then b else a.
Definition pymax (a b : F) : F := if (b >? a)%F then b else a.
End PyBuiltins.

(** *** Exact rationals *)

(** Here no operation rounds.  A division by zero, which the floats answer
    with an infinity or a NaN, is 0 in [Q]; the binary64 instance below
    follows the floats there. *)

(** Nearest integer, ties to the even one. *)
Definition Qround_half_even (q : Q) : Z :=
  let f := Qfloor q in
  match Qcompare (q - inject_Z f) (1 # 2) with
  | Lt => f
  | Gt => f + 1
  | Eq => if Z.even f then f else f + 1
  end.

Definition Qltb (x y : Q) : bool := negb (Qle_bool y x).

Definition Qtrunc (x : Q) : Z := Z.quot (Qnum x) (Zpos (Qden x)).

Definition Qround2 (x : Q) : Q := Qround_half_even (x * 100) # 100.

#[export] Instance QFloat : PyFloat Q := {
  fadd := Qplus;
  fsub := Qminus;
  fmul := Qmult;
  fdiv := Qdiv;
  fltb := Qltb;
  fleb := Qle_bool;
  flit n d := n # d;
  fround2 := Qround2;
  ftrunc x := Some (Qtrunc x)
}.

(** *** IEEE 754 binary64 *)

Module B64.
Definition prec : Z := 53.
Definition emax : Z := 1024.

Definition t := spec_float.

Definition of_Z (n : Z) : t :=
  match n with
  | Z0 => S754_zero false
  | Zpos p => S754_finite false p 0
  | Zneg p => S754_finite true p 0
  end.

(** The float nearest to [n/d]: a division of two integers, rounded
    once. *)
Definition of_ratio (n : Z) (d : positive) : t :=
  SFdiv prec emax (of_Z n) (of_Z (Zpos d)).

(** The rational a finite float stands for. *)
Definition to_Q (x : t) : option Q :=
  match x with
  | S754_zero _ => Some 0%Q
  | S754_finite s m e =>
      let v := match e with
               | Zneg k => (Zpos m # Pos.shiftl 1 (Npos k))%Q
               | _ => inject_Z (Z.shiftl (Zpos m) e)
               end in
      Some (if s then Qopp v else v)
  | _ => None
  end.

(** [round(x, 2)]: the decimal nearest to the exact value of [x], ties to
    even, then the float nearest to that decimal.  Infinities, NaN and
    zeros come back unchanged. *)
Definition round2 (x : t) : t :=
  match x with
  | S754_finite s _ _ =>
      match to_Q x with
      | Some q =>
          let n := Qround_half_even (q * 100) in
          if (n =? 0)%Z then S754_zero s else of_ratio n 100
      | None => x
      end
  | _ => x
  end.
End B64.

#[export] Instance B64Float : PyFloat B64.t := {
  fadd := SFadd B64.prec B64.emax;
  fsub := SFsub B64.prec B64.emax;
  fmul := SFmul B64.prec B64.emax;
  fdiv := SFdiv B64.prec B64.emax;
  fltb := SFltb;
  fleb := SFleb;
  flit := B64.of_ratio;
  fround2 := B64.round2;
  ftrunc x := Qtrunc <$> B64.to_Q x
}.

(** ** Configuration *)

Section Config.
Context {F : Type} `{PyFloat F}.

Definition VOL_SMA_WINDOW : nat := 50.
Definition GAP_THRESHOLD : F := flit 10 100.
Definition VOL_RATIO_GOOD : F := flit 2 1.
End Config.

(** ** The composite score of one ticker (lines 70 to 74 of [build]) *)

Section Composite.
Context {F : Type} `{PyFloat F}.

Definition fresh_of (news_score : F) : F := pymin (flit 5 1) news_score.

Definition inst_of (gap_pct vol_ratio : F) : F :=
  if (gap_pct >=? GAP_THRESHOLD)%F && (vol_ratio >=? VOL_RATIO_GOOD)%F
  then flit 5 1
  else if (gap_pct >=? flit 5 100)%F && (vol_ratio >=? flit 15 10)%F
  then flit 3 1
  else if (vol_ratio >=? flit 12 10)%F then flit 15 10
  else flit 0 1.

Definition justified_of (fresh inst : F) : F :=
  if (fresh >=? flit 2 1)%F && (inst >=? flit 3 1)%F then flit 4 1
  else if (fresh >? flit 0 1)%F then flit 2 1
  else flit 5 10.

Definition rerate_of (fresh inst : F) : F :=
  pymin (flit 5 1) (fresh + inst / flit 2 1)%F.

Definition overall_of (fresh inst justified rerate : F) : F :=
  fround2 (fresh * flit 4 10 + inst * flit 35 100
           + justified * flit 15 100 + rerate * flit 10 100)%F.
End Composite.

(** ** Exceptions *)

(** A computation returns a value or raises; an exception is kept as the
    text [str(e)] gives for it. *)
Inductive result (A : Type) : Type :=
| Ok (a : A)
| Raise (e : string).
Arguments Ok {A} a.
Arguments Raise {A} e.

#[export] Instance result_ret : MRet result := fun _ a => Ok a.
#[export] Instance result_bind : MBind result := fun _ _ k m =>
  match m with
  | Ok a => k a
  | Raise e => Raise e
  end.

(** ** Strings *)

Local Open Scope string_scope.

Definition code (c : ascii) : N := N_of_ascii c.

(** [str.lower] on the characters below 256. *)
Definition lower_char (c : ascii) : ascii :=
  let n := code c in
  if ((65 <=? n) && (n <=? 90))%N
     || ((192 <=? n) && (n <=? 222) && negb (n =? 215))%N
  then ascii_of_N (n + 32) else c.

Fixpoint lower (s : string) : string :=
  match s with
  | EmptyString => EmptyString
  | String c s' => String (lower_char c) (lower s')
  end.

(** [kw in s] *)
Fixpoint is_substring (kw s : string) : bool :=
  String.prefix kw s
  || match s with
     | EmptyString => false
     | String _ s' => is_substring kw s'
     end.

(** [s.replace] of every "Z" by nothing. *)
Fixpoint remove_Z (s : string) : string :=
  match s with
  | EmptyString => EmptyString
  | String c s' => if Ascii.eqb c "Z" then remove_Z s' else String c (remove_Z s')
  end.

(** ** NewsScorer: [get_news_score] *)

Definition NEWS_KEYWORDS : list string :=
  [ "earnings"; "guidance"; "revenue"; "eps"; "beats"; "miss";
    "acquire"; "acquisition"; "merger"; "partnership"; "strategic";
    "approval"; "fda"; "phase"; "contract"; "order"; "upgrade";
    "initiates coverage" ].

(** A [datetime]: microseconds on the time line, and whether the value
    carries a UTC offset.  Python orders two naive or two aware values and
    refuses to order a naive one with an aware one. *)
Record datetime := { instant : Z; aware : bool }.

Definition dt_lt (a b : datetime) : result bool :=
  if Bool.eqb (aware a) (aware b) then Ok (instant a <? instant b)%Z
  else Raise "can't compare offset-naive and offset-aware datetimes".

(** [datetime.utcfromtimestamp(n)]: a naive value, for the years 1 to 9999. *)
Definition utcfromtimestamp (n : Z) : option datetime :=
  if ((-62135596800 <=? n) && (n <=? 253402300799))%Z
  then Some {| instant := n * 1000000; aware := false |}
  else None.

Section News.
Context {F : Type} `{PyFloat F}.

(** What a news item holds under a key read with [n.get]. *)
Inductive pyval :=
| PNone
| PInt (z : Z)
| PFloat (x : F)
| PStr (s : string).

Record NewsItem := {
  providerPublishTime : pyval;
  published : pyval;
  title : option string
}.

Definition truthy (v : pyval) : bool :=
  match v with
  | PNone => false
  | PInt z => negb (z =? 0)%Z
  | PFloat x => negb ((x <=? flit 0 1)%F && (flit 0 1 <=? x)%F)
  | PStr s => negb (String.eqb s EmptyString)
  end.

(** [a or b] *)
Definition py_or (a b : pyval) : pyval := if truthy a then a else b.

(** The library parser [datetime.fromisoformat], which differs between
    Python versions: [None] where it raises. *)
Variable fromisoformat : string -> option datetime.

(** Line 29 inside its [try]: [None] where the [except] is taken. *)
Definition parse_ts (ts : pyval) : option datetime :=
  match ts with
  | PNone => None
  | PInt z => utcfromtimestamp z
  | PFloat x => z ← ftrunc x; utcfromtimestamp z
  | PStr s => fromisoformat (remove_Z s)
  end.

Definition title_of (n : NewsItem) : string :=
  lower (default EmptyString (title n)).

(** Lines 34 to 38: the capped contribution of one title. *)
Definition keyword_score (t : string) : F :=
  let s := fold_left
             (fun s kw => if is_substring kw t then (s + flit 1 1)%F else s)
             NEWS_KEYWORDS (flit 5 10) in
  pymin s (flit 3 1).

(** The loop of lines 25 to 38, [score] being the running sum. *)
Fixpoint score_items (items : list NewsItem) (since_ts : datetime) (score : F)
  : result F :=
  match items with
  | [] => Ok score
  | n :: rest =>
      let ts := py_or (providerPublishTime n) (published n) in
      match ts with
      | PNone => score_items rest since_ts score
      | _ =>
          match parse_ts ts with
          | None => score_items rest since_ts score
          | Some published =>
              old ← dt_lt published since_ts;
              if (old : bool) then score_items rest since_ts score
              else score_items rest since_ts (score + keyword_score (title_of n))%F
          end
      end
  end.

Definition get_news_score (news_items : option (list NewsItem))
    (since_ts : datetime) : result F :=
  score ← score_items (default [] news_items) since_ts (flit 0 1);
  Ok (pymin score (flit 10 1)).
End News.

Arguments PNone {F}.
Arguments PInt {F} z.
Arguments PStr {F} s.

(** The text helpers of the universe file. *)

(** [str.isspace] on the characters below 256. *)
Definition is_space (c : ascii) : bool :=
  let n := code c in
  ((9 <=? n) && (n <=? 13) || (28 <=? n) && (n <=? 32)
   || (n =? 133) || (n =? 160))%N.

(** The line boundaries of [str.splitlines] below 256. *)
Definition is_linebreak (c : ascii) : bool :=
  let n := code c in
  ((10 <=? n) && (n <=? 13) || (28 <=? n) && (n <=? 30) || (n =? 133))%N.

(** Puts [c] in front of the first piece. *)
Definition cons_first (c : ascii) (pieces : list string) : list string :=
  match pieces with
  | [] => [String c EmptyString]
  | h :: t => String c h :: t
  end.

(** [s.splitlines()] *)
Fixpoint splitlines (s : string) : list string :=
  match s with
  | EmptyString => []
  | String c s' =>
      if is_linebreak c then
        EmptyString :: splitlines
                (if (code c =? 13)%N
                 then match s' with
                      | String d s'' => if (code d =? 10)%N then s'' else s'
                      | EmptyString => s'
                      end
                 else s')
      else cons_first c (splitlines s')
  end.

(** [s.split(",")] *)
Fixpoint split_comma (s : string) : list string :=
  match s with
  | EmptyString => [EmptyString]
  | String c s' =>
      if Ascii.eqb c "," then EmptyString :: split_comma s'
      else cons_first c (split_comma s')
  end.

Fixpoint lstrip (s : string) : string :=
  match s with
  | EmptyString => EmptyString
  | String c s' => if is_space c then lstrip s' else s
  end.

Fixpoint rstrip (s : string) : string :=
  match s with
  | EmptyString => EmptyString
  | String c s' =>
      let r := rstrip s' in
      if is_space c && String.eqb r EmptyString then EmptyString else String c r
  end.

(** [s.strip()] *)
Definition strip (s : string) : string := rstrip (lstrip s).

Definition nonempty (s : string) : bool := negb (String.eqb s EmptyString).

(** ** UniverseLoader: [load_tickers] *)

Definition UNIVERSE_FILE : string := "qm1w.txt".

(** The command of [compute_diff]; its output is empty when it fails. *)
Definition GIT_SHOW : string := "git show HEAD~1:qm1w.txt 2>/dev/null".

(** The two comprehensions of [load_tickers], on the text of the file. *)
Definition parse_tickers (txt : string) : list string :=
  let raw := line ← splitlines txt; strip <$> split_comma line in
  List.filter nonempty raw.

(** ** MetricsEngine: [compute_gap_and_volume_metrics] *)

Section Metrics.
Context {F : Type} `{PyFloat F}.

(** One row of the frame [tk.history] returns. *)
Record PriceBar := {
  bar_date : string;
  Open : F;
  Close : F;
  Volume : F
}.

Record MetricResult := {
  gap_pct : F;
  vol_ratio : F;
  close : F;
  date : string
}.

(** *** [Series.rolling(w).mean()]

    pandas does not sum each window again: [roll_mean] keeps one running
    sum over the series, takes out the value that leaves the window and
    puts in the one that enters, both with Kahan's compensation, and reads
    the mean off that state.  In floats the result depends on that order,
    so the loop is followed as it is written. *)

(** [-x]; the product with [-1.0] has no rounding. *)
Definition fneg (x : F) : F := (x * flit (-1) 1)%F.

(** [a == b] on floats; [val == val] fails on a NaN only. *)
Definition feqb (a b : F) : bool := (a <=? b)%F && (b <=? a)%F.

(** [signbit(x)] for an [x] that is not a NaN: [x] is negative or is the
    zero whose inverse is negative. *)
Definition signbit (x : F) : bool :=
  (x <? flit 0 1)%F || (flit 1 1 / x <? flit 0 1)%F.

(** The values are read with every infinity turned into a NaN; [x - x] is
    a NaN exactly when [x] is an infinity or a NaN. *)
Definition prep_value (x : F) : F :=
  if feqb (x - x)%F (x - x)%F then x else (x - x)%F.

(** The variables of the loop of [roll_mean]. *)
Record roll_state := {
  nobs : Z;
  sum_x : F;
  neg_ct : Z;
  compensation_add : F;
  compensation_remove : F;
  num_consecutive_same_value : Z;
  prev_value : F
}.

Definition add_mean (val : F) (st : roll_state) : roll_state :=
  if feqb val val then
    let y := (val - compensation_add st)%F in
    let t := (sum_x st + y)%F in
    {| nobs := nobs st + 1;
       sum_x := t;
       neg_ct := if signbit val then neg_ct st + 1 else neg_ct st;
       compensation_add := (t - sum_x st - y)%F;
       compensation_remove := compensation_remove st;
       num_consecutive_same_value :=
         if feqb val (prev_value st)
         then num_consecutive_same_value st + 1 else 1;
       prev_value := val |}
  else st.

Definition remove_mean (val : F) (st : roll_state) : roll_state :=
  if feqb val val then
    let y := (fneg val - compensation_remove st)%F in
    let t := (sum_x st + y)%F in
    {| nobs := nobs st - 1;
       sum_x := t;
       neg_ct := if signbit val then neg_ct st - 1 else neg_ct st;
       compensation_add := compensation_add st;
       compensation_remove := (t - sum_x st - y)%F;
       num_consecutive_same_value := num_consecutive_same_value st;
       prev_value := prev_value st |}
  else st.

(** The mean read off the state; NaN ([None]) while fewer than [minp]
    values are in the window. *)
Definition calc_mean (minp : Z) (st : roll_state) : option F :=
  if ((minp <=? nobs st) && (0 <? nobs st))%Z then
    let result := (sum_x st / flit (nobs st) 1)%F in
    Some (if (nobs st <=? num_consecutive_same_value st)%Z then prev_value st
          else if (neg_ct st =? 0)%Z && (result <? flit 0 1)%F then flit 0 1
          else if (neg_ct st =? nobs st)%Z && (result >? flit 0 1)%F then flit 0 1
          else result)
  else None.

Definition roll_start (x0 : F) : roll_state :=
  {| nobs := 0; sum_x := flit 0 1; neg_ct := 0;
     compensation_add := flit 0 1; compensation_remove := flit 0 1;
     num_consecutive_same_value := 0; prev_value := x0 |}.

(** The turns of the loop from position [i] on: the window of position [i]
    is [max(0, i + 1 - w), i + 1), so from [i = w] on the value at [i - w]
    leaves before the value at [i] enters. *)
Fixpoint roll_from (w : nat) (values : list F) (i : nat) (rest : list F)
    (st : roll_state) : list (option F) :=
  match rest with
  | [] => []
  | val :: rest' =>
      let st1 := if decide (w <= i)%nat
                 then match values !! (i - w)%nat with
                      | Some old => remove_mean old st
                      | None => st
                      end
                 else st in
      let st2 := add_mean val st1 in
      calc_mean (Z.of_nat w) st2 :: roll_from w values (S i) rest' st2
  end.

(** [Series.rolling(w).mean()], with [min_periods] at its default [w]. *)
Definition rolling_mean (w : nat) (xs : list F) : list (option F) :=
  let values := prep_value <$> xs in
  match values with
  | [] => []
  | x0 :: _ => roll_from w values 0 values (roll_start x0)
  end.

(** [frame.iloc[-k]] *)
Definition iloc_neg {A} (l : list A) (k : nat) : result A :=
  match (if decide (1 <= k <= length l)%nat then l !! (length l - k)%nat else None) with
  | Some a => Ok a
  | None => Raise "single positional indexer is out-of-bounds"
  end.

(** [max(1.0, adv)], where [adv] may be NaN. *)
Definition floor_at_one (adv : option F) : F :=
  match adv with
  | Some a => pymax (flit 1 1) a
  | None => flit 1 1
  end.

(** Lines 44 to 49, on the frame that was fetched. *)
Definition metrics_of_history (hist : list PriceBar)
  : result (option MetricResult) :=
  if decide (length hist < VOL_SMA_WINDOW + 2)%nat then Ok None
  else
    let ADV := rolling_mean VOL_SMA_WINDOW (Volume <$> hist) in
    last ← iloc_neg (zip hist ADV) 1;
    prev ← iloc_neg (zip hist ADV) 2;
    Ok (Some {|
      gap_pct := ((Open last.1 - Close prev.1) / Close prev.1)%F;
      vol_ratio := (Volume last.1 / floor_at_one last.2)%F;
      close := Close last.1;
      date := bar_date last.1
    |}).
End Metrics.

Arguments PriceBar F : clear implicits.
Arguments MetricResult F : clear implicits.
Arguments roll_state F : clear implicits.
Arguments NewsItem F : clear implicits.
Arguments pyval F : clear implicits.

(** ** The rows of [build] *)

Definition NEWS_LOOKBACK_DAYS : Z := 90.

Section Build.
Context {F : Type} `{PyFloat F}.

(** The values a row holds. *)
Inductive value :=
| VNone
| VFloat (x : F)
| VStr (s : string).

(** A row is a [dict] with string keys. *)
Abbreviation row := (gmap string value).

(** What the run reads from outside: the files, the shell, the data
    provider, the clock and the library parser of timestamps. *)
Record world := {
  read_file : string -> result string;
  popen_read : string -> string;
  history : string -> result (list (PriceBar F));
  news : string -> result (option (list (NewsItem F)));
  utcnow : Z;
  fromisoformat : string -> option datetime
}.

Variable W : world.

Definition load_tickers (path : string) : result (list string) :=
  txt ← read_file W path;
  Ok (parse_tickers txt).

Definition compute_gap_and_volume_metrics (ticker : string)
  : result (option (MetricResult F)) :=
  hist ← history W ticker;
  metrics_of_history hist.

Definition since_ts : datetime :=
  {| instant := utcnow W - NEWS_LOOKBACK_DAYS * 86400000000;
     aware := false |}.

(** Line 68. *)
Definition insufficient_row (t : string) : row :=
  list_to_map
    [ ("ticker", VStr t); ("overall", VFloat (flit 0 1));
      ("gap_pct", VNone); ("vol_ratio", VNone);
      ("fresh_catalyst_score", VFloat (flit 0 1));
      ("justified_story_score", VFloat (flit 0 1));
      ("rerating_potential", VFloat (flit 0 1)) ].

(** Lines 70 to 75. *)
Definition scored_row (t : string) (metrics : MetricResult F) (news_score : F)
  : row :=
  let fresh := fresh_of news_score in
  let inst := inst_of (gap_pct metrics) (vol_ratio metrics) in
  let justified := justified_of fresh inst in
  let rerate := rerate_of fresh inst in
  let overall := overall_of fresh inst justified rerate in
  list_to_map
    [ ("ticker", VStr t);
      ("gap_pct", VFloat (fround2 (gap_pct metrics * flit 100 1)%F));
      ("vol_ratio", VFloat (fround2 (vol_ratio metrics)));
      ("fresh_catalyst_score", VFloat (fround2 fresh));
      ("justified_story_score", VFloat (fround2 justified));
      ("rerating_potential", VFloat (fround2 rerate));
      ("overall", VFloat overall);
      ("last_date", VStr (date metrics));
      ("price", VFloat (close metrics)) ].

(** Line 77. *)
Definition error_row (t e : string) : row :=
  list_to_map
    [ ("ticker", VStr t); ("overall", VFloat (flit 0 1)); ("error", VStr e) ].

(** The body of the [try], lines 64 to 75. *)
Definition try_ticker (t : string) : result row :=
  metrics ← compute_gap_and_volume_metrics t;
  news_opt ← news W t;
  news_score ← get_news_score (fromisoformat W) (Some (default [] news_opt)) since_ts;
  match metrics with
  | None => Ok (insufficient_row t)
  | Some m => Ok (scored_row t m news_score)
  end.

(** One turn of the loop: the [try] and its [except]. *)
Definition row_of_ticker (t : string) : row :=
  match try_ticker t with
  | Ok r => r
  | Raise e => error_row t e
  end.

(** Lines 61 to 77: [rows] grows by one row per ticker. *)
Definition build_rows (tickers : list string) : list row :=
  fold_left (fun rows t => (rows ++ [row_of_ticker t])%list) tickers [].

(** *** Ranking: [pd.DataFrame(rows).sort_values(...)] *)

(** A frame has the union of the keys of its rows as columns. *)
Record DataFrame := {
  columns : gset string;
  records : list row
}.

Definition DataFrame_of (rows : list row) : DataFrame :=
  {| columns := ⋃ (dom <$> rows); records := rows |}.

(** The number in a cell; a missing key, [None] and NaN are all NaN in
    the frame ([None] here). *)
Definition cell (r : row) (k : string) : option F :=
  match r !! k with
  | Some (VFloat x) => if (x <=? x)%F then Some x else None
  | _ => None
  end.

(** Descending order on one key, NaN last: [Lt] when [a] goes first. *)
Definition desc_cmp (a b : option F) : comparison :=
  match a, b with
  | Some x, Some y =>
      if (x >? y)%F then Lt else if (x <? y)%F then Gt else Eq
  | Some _, None => Lt
  | None, Some _ => Gt
  | None, None => Eq
  end.

Fixpoint lex_cmp (by_ : list string) (r1 r2 : row) : comparison :=
  match by_ with
  | [] => Eq
  | k :: rest =>
      match desc_cmp (cell r1 k) (cell r2 k) with
      | Eq => lex_cmp rest r1 r2
      | c => c
      end
  end.

Definition goes_before (by_ : list string) (r1 r2 : row) : bool :=
  match lex_cmp by_ r1 r2 with
  | Gt => false
  | _ => true
  end.

(** The sort on several keys is stable. *)
Fixpoint insert_row (by_ : list string) (r : row) (l : list row) : list row :=
  match l with
  | [] => [r]
  | r' :: l' =>
      if goes_before by_ r r' then r :: l else r' :: insert_row by_ r l'
  end.

Definition stable_sort (by_ : list string) (l : list row) : list row :=
  foldr (insert_row by_) [] l.

(** [df.sort_values(by=by_, ascending=[False, ...])]: a [KeyError] on a
    key that is no column. *)
Definition sort_values (df : DataFrame) (by_ : list string) : result DataFrame :=
  match List.find (fun k => bool_decide (k ∉ columns df)) by_ with
  | Some k => Raise ("'" ++ k ++ "'")
  | None => Ok {| columns := columns df;
                  records := stable_sort by_ (records df) |}
  end.

Definition SORT_KEYS : list string :=
  [ "overall"; "fresh_catalyst_score"; "vol_ratio" ].

(** *** UniverseDiffer: [compute_diff] *)

(** [sorted(list(s))] *)
Definition sorted (s : gset string) : list string :=
  merge_sort String.le (elements s).

Definition compute_diff : result (list string * list string) :=
  let prev_content := popen_read W "git show HEAD~1:qm1w.txt 2>/dev/null" in
  let prev : gset string :=
    list_to_set (line ← splitlines prev_content;
                 t ← split_comma line;
                 if nonempty (strip t) then [strip t] else []) in
  tickers ← load_tickers UNIVERSE_FILE;
  let cur : gset string := list_to_set tickers in
  Ok (sorted (cur ∖ prev), sorted (prev ∖ cur)).

(** *** [build], up to the two report files *)

Definition build : result (DataFrame * (list string * list string)) :=
  tickers ← load_tickers UNIVERSE_FILE;
  let rows := build_rows tickers in
  df ← sort_values (DataFrame_of rows) SORT_KEYS;
  diff ← compute_diff;
  Ok (df, diff).
End Build.

Arguments value F : clear implicits.
Arguments world F : clear implicits.
Arguments DataFrame F : clear implicits.
Arguments VNone {F}.
Arguments VStr {F} s.

(** ** What the properties are stated with *)

(** The sum and the mean of a list of values, added from left to right. *)
Definition fsum {F : Type} `{PyFloat F} (xs : list F) : F :=
  fold_left fadd xs (flit 0 1).

Definition mean {F : Type} `{PyFloat F} (xs : list F) : F :=
  (fsum xs / flit (Z.of_nat (length xs)) 1)%F.

(** The mean of the last [w] values of a series: the trailing simple moving
    average that ends at the most recent session. *)
Definition trailing_average {F : Type} `{PyFloat F} (w : nat) (xs : list F) : F :=
  mean (drop (length xs - w) xs).

(** What the state of [roll_mean] has to hold, in exact arithmetic, once the
    values [l] are in the window: their number, their sum, no compensation
    left, and the number of negative ones. *)
Definition negatives (l : list Q) : nat :=
  length (List.filter (fun v => Qltb v 0) l).

Definition window (w : nat) (pre : list Q) : list Q :=
  drop (length pre - w) pre.

Definition tracks (l : list Q) (st : roll_state Q) : Prop :=
  nobs st = Z.of_nat (length l)
  /\ (sum_x st == fsum l)%Q
  /\ (compensation_add st == 0)%Q
  /\ (compensation_remove st == 0)%Q
  /\ neg_ct st = Z.of_nat (negatives l).

(** The last [num_consecutive_same_value] values read are equal to
    [prev_value]. *)
Definition same_run (pre : list Q) (st : roll_state Q) : Prop :=
  exists k : nat,
    num_consecutive_same_value st = Z.of_nat k
    /\ (k <= length pre)%nat
    /\ Forall (fun v => (v == prev_value st)%Q) (drop (length pre - k) pre).

(** The sub-score fields the rows carry, and the field they never carry. *)
Definition SUB_SCORES : list string :=
  [ "fresh_catalyst_score"; "justified_story_score"; "rerating_potential" ].

Definition INSTITUTIONAL : string := "institutional_interest_score".

(** A row holds a number under [k]. *)
Definition has_float {F : Type} (r : gmap string (value F)) (k : string) : Prop :=
  exists x, r !! k = Some (VFloat x).

(** The tiers of the institutional score, as conditions on the pair. *)
Section Tiers.
Context {F : Type} `{PyFloat F}.

Definition tier_5 (gap vol : F) : bool :=
  (gap >=? flit 10 100)%F && (vol >=? flit 2 1)%F.
Definition tier_3 (gap vol : F) : bool :=
  (gap >=? flit 5 100)%F && (vol >=? flit 15 10)%F.
Definition tier_1_5 (vol : F) : bool := (vol >=? flit 12 10)%F.

(** First match wins: what each value of the score says about the pair. *)
Definition tiers_spec (gap vol : F) : Prop :=
  let s := inst_of gap vol in
  (s = flit 5 1 \/ s = flit 3 1 \/ s = flit 15 10 \/ s = flit 0 1)
  /\ (s = flit 5 1 <-> tier_5 gap vol = true)
  /\ (s = flit 3 1 <-> tier_5 gap vol = false /\ tier_3 gap vol = true)
  /\ (s = flit 15 10 <->
        tier_5 gap vol = false /\ tier_3 gap vol = false /\ tier_1_5 vol = true)
  /\ (s = flit 0 1 <->
        tier_5 gap vol = false /\ tier_3 gap vol = false /\ tier_1_5 vol = false).

(** The worked example of the composite score. *)
Definition composite_example : Prop :=
  let fresh := fresh_of (flit 4 1) in
  let inst := inst_of (flit 12 100) (flit 25 10) in
  let justified := justified_of fresh inst in
  let rerate := rerate_of fresh inst in
  let overall := overall_of fresh inst justified rerate in
  fresh = flit 4 1 /\ inst = flit 5 1 /\ justified = flit 4 1
  /\ rerate = flit 5 1
  /\ overall = fround2 (flit 4 1 * flit 4 10 + flit 5 1 * flit 35 100
                        + flit 4 1 * flit 15 100 + flit 5 1 * flit 10 100)%F
  /\ overall = flit 445 100.
End Tiers.

(** The four values of the institutional score are four different floats. *)
Definition tier_values_distinct (F : Type) `{PyFloat F} : Prop :=
  flit 5 1 <> flit 3 1 /\ flit 5 1 <> flit 15 10 /\ flit 5 1 <> flit 0 1
  /\ flit 3 1 <> flit 15 10 /\ flit 3 1 <> flit 0 1 /\ flit 15 10 <> flit 0 1.

(** The item [n] can be placed against the cutoff: its timestamp is missing
    or unreadable, or of the same kind (naive or aware) as the cutoff. *)
Definition comparable {F : Type} `{PyFloat F} (fromiso : string -> option datetime)
    (n : NewsItem F) (since : datetime) : Prop :=
  forall d,
    parse_ts fromiso (py_or (providerPublishTime n) (published n)) = Some d ->
    aware d = aware since.

(** The number of keywords that occur in a title. *)
Definition keyword_count (t : string) : nat :=
  length (List.filter (fun kw => is_substring kw t) NEWS_KEYWORDS).

(** What one item adds to the sum when it can be placed against the cutoff. *)
Definition contribution (fromiso : string -> option datetime)
    (n : NewsItem Q) (since : datetime) : Q :=
  match parse_ts fromiso (py_or (providerPublishTime n) (published n)) with
  | Some d =>
      if (instant d <? instant since)%Z then 0
      else Qmin 3 ((1 # 2) + inject_Z (Z.of_nat (keyword_count (title_of n))))
  | None => 0
  end.

(** The strict order of [sorted]: a list sorted by it has no duplicates. *)
Definition str_lt (a b : string) : Prop := String.le a b /\ a <> b.

(** The ranking as the specification words it: a key that is absent counts
    as minus infinity, and the rows go by descending (overall,
    fresh_catalyst_score, vol_ratio). *)
Inductive ext :=
| NegInf
| Fin (q : Q).

Definition ext_of (o : option Q) : ext :=
  match o with
  | Some q => Fin q
  | None => NegInf
  end.

Definition ext_lt (a b : ext) : Prop :=
  match a, b with
  | NegInf, Fin _ => True
  | Fin x, Fin y => (x < y)%Q
  | _, NegInf => False
  end.

Definition ext_eq (a b : ext) : Prop :=
  match a, b with
  | NegInf, NegInf => True
  | Fin x, Fin y => (x == y)%Q
  | _, _ => False
  end.

Definition rank_key (r : gmap string (value Q)) (k : string) : ext :=
  ext_of (cell r k).

(** [r1] may stand before [r2]: its key tuple is not below that of [r2]. *)
Definition ranks_before (r1 r2 : gmap string (value Q)) : Prop :=
  ext_lt (rank_key r2 "overall") (rank_key r1 "overall")
  \/ (ext_eq (rank_key r1 "overall") (rank_key r2 "overall")
      /\ (ext_lt (rank_key r2 "fresh_catalyst_score")
                 (rank_key r1 "fresh_catalyst_score")
          \/ (ext_eq (rank_key r1 "fresh_catalyst_score")
                     (rank_key r2 "fresh_catalyst_score")
              /\ (ext_lt (rank_key r2 "vol_ratio") (rank_key r1 "vol_ratio")
                  \/ ext_eq (rank_key r1 "vol_ratio") (rank_key r2 "vol_ratio"))))).

(** [r1] may stand before [r2] in the sort on the keys [by_]. *)
Definition before (by_ : list string) (r1 r2 : gmap string (value Q)) : Prop :=
  goes_before by_ r1 r2 = true.

(** The laws of a three-way comparison that ranks. *)
Record cmp_laws {A : Type} (c : A -> A -> comparison) : Prop := {
  cmp_opp : forall a b, c b a = CompOpp (c a b);
  cmp_lt_trans : forall a b d, c a b = Lt -> c b d = Lt -> c a d = Lt;
  cmp_eq_l : forall a b d, c a b = Eq -> c a d = c b d
}.

(** ** A parser of timestamps and a small market, for the examples *)

(** Formats that [datetime.fromisoformat] reads: [YYYY-MM-DD], then
    optionally one separator and a time [HH], [HH:MM], [HH:MM:SS],
    [HH:MM:SS.fff] or [HH:MM:SS.ffffff], then optionally an offset [+HH:MM]
    or [-HH:MM], which makes the value aware. *)
Module Iso.
Definition digit (c : ascii) : option Z :=
  let n := code c in
  if ((48 <=? n) && (n <=? 57))%N then Some (Z.of_N n - 48) else None.

(** Reads exactly [k] digits. *)
Fixpoint number (k : nat) (s : string) (acc : Z) : option (Z * string) :=
  match k with
  | O => Some (acc, s)
  | S k' =>
      match s with
      | String c s' => d ← digit c; number k' s' (10 * acc + d)
      | EmptyString => None
      end
  end.

Definition expect (c : ascii) (s : string) : option string :=
  match s with
  | String d s' => if Ascii.eqb c d then Some s' else None
  | EmptyString => None
  end.

Definition is_leap (y : Z) : bool :=
  ((y mod 4 =? 0) && negb (y mod 100 =? 0) || (y mod 400 =? 0))%Z.

Definition days_in_month (y m : Z) : Z :=
  if (m =? 2)%Z then (if is_leap y then 29 else 28)
  else if ((m =? 4) || (m =? 6) || (m =? 9) || (m =? 11))%Z then 30 else 31.

(** Days from 1970-01-01 to the given date of the civil calendar. *)
Definition days_from_civil (y m d : Z) : Z :=
  let y' := if (m <=? 2)%Z then y - 1 else y in
  let era := y' / 400 in
  let yoe := y' - era * 400 in
  let doy := (153 * (if (m >? 2)%Z then m - 3 else m + 9) + 2) / 5 + d - 1 in
  let doe := yoe * 365 + yoe / 4 - yoe / 100 + doy in
  era * 146097 + doe - 719468.

Definition date_part (s : string) : option (Z * string) :=
  '(y, s) ← number 4 s 0; s ← expect "-" s;
  '(m, s) ← number 2 s 0; s ← expect "-" s;
  '(d, s) ← number 2 s 0;
  if ((1 <=? y) && (1 <=? m) && (m <=? 12) && (1 <=? d)
      && (d <=? days_in_month y m))%Z
  then Some (days_from_civil y m d, s) else None.

(** [HH:MM:SS] or [HH:MM] as seconds. *)
Definition clock_part (with_seconds : bool) (s : string) : option (Z * string) :=
  '(h, s) ← number 2 s 0; s ← expect ":" s;
  '(mi, s) ← number 2 s 0;
  '(sec, s) ← (if with_seconds then s ← expect ":" s; number 2 s 0
                else Some (0, s));
  if ((h <? 24) && (mi <? 60) && (sec <? 60))%Z
  then Some (h * 3600 + mi * 60 + sec, s) else None.

Definition offset_part (s : string) : option (Z * string) :=
  match s with
  | String c s' =>
      if Ascii.eqb c "+" then clock_part false s'
      else if Ascii.eqb c "-" then '(o, s'') ← clock_part false s'; Some (- o, s'')
      else None
  | EmptyString => None
  end.

(** The fraction of a second, three or six digits, in microseconds. *)
Definition fraction_part (s : string) : option (Z * string) :=
  match expect "." s with
  | None => Some (0, s)
  | Some s1 =>
      '(ms, s2) ← number 3 s1 0;
      match number 3 s2 0 with
      | Some (us, s3) => Some (ms * 1000 + us, s3)
      | None => Some (ms * 1000, s2)
      end
  end.

(** The time of day in microseconds, the minutes, the seconds and the
    fraction being optional in that order. *)
Definition time_part (s : string) : option (Z * string) :=
  '(h, s) ← number 2 s 0;
  '(mi, sec, us, s) ←
    match expect ":" s with
    | None => Some (0, 0, 0, s)
    | Some s1 =>
        '(mi, s2) ← number 2 s1 0;
        match expect ":" s2 with
        | None => Some (mi, 0, 0, s2)
        | Some s3 =>
            '(sec, s4) ← number 2 s3 0;
            '(us, s5) ← fraction_part s4;
            Some (mi, sec, us, s5)
        end
    end;
  if ((h <? 24) && (mi <? 60) && (sec <? 60))%Z
  then Some ((h * 3600 + mi * 60 + sec) * 1000000 + us, s) else None.

Definition parse (s : string) : option datetime :=
  '(days, s) ← date_part s;
  match s with
  | EmptyString => Some {| instant := days * 86400 * 1000000; aware := false |}
  | String _ s' =>
      '(us, s'') ← time_part s';
      let wall := days * 86400 * 1000000 + us in
      match s'' with
      | EmptyString => Some {| instant := wall; aware := false |}
      | _ =>
          '(off, rest) ← offset_part s'';
          if String.eqb rest EmptyString
          then Some {| instant := wall - off * 1000000; aware := true |}
          else None
      end
  end.
End Iso.

Module Example.
Definition bar (d : string) (o c v : Q) : PriceBar Q :=
  {| bar_date := d; Open := o; Close := c; Volume := v |}.

(** Fifty quiet sessions, then a session closing at 100 and a session that
    opens at 112 on two and a half times the usual volume. *)
Definition gap_history : list (PriceBar Q) :=
  (replicate 50 (bar "2024-05-01" 100 100 1000)
   ++ [ bar "2024-05-30" 100 100 1000; bar "2024-05-31" 112 115 2500 ])%list.

Definition item (ts : pyval Q) (t : string) : NewsItem Q :=
  {| providerPublishTime := ts; published := PNone; title := Some t |}.

(** A numeric timestamp, one that is missing, one that does not parse, one
    from before the cutoff. *)
Definition gap_news : list (NewsItem Q) :=
  [ item (PInt 1717000000) "Acme BEATS on earnings, raises guidance";
    item PNone "Acme wins contract";
    {| providerPublishTime := PNone; published := PStr "yesterday";
       title := Some "Acme merger" |};
    item (PInt 1500000000) "Acme upgrade" ].

(** A timestamp that carries a UTC offset. *)
Definition offset_news : list (NewsItem Q) :=
  [ {| providerPublishTime := PNone;
       published := PStr "2024-05-30T12:00:00+00:00";
       title := Some "Acme earnings" |} ].

(** Three tickers: one with a full history, one with none, one whose fetch
    fails.  The previous universe was [A,B,C]. *)
Definition market : world Q :=
  {| read_file p :=
       if String.eqb p "qm1w.txt" then Ok "GAP,THIN,DOWN"
       else Raise "No such file or directory";
     popen_read cmd := "A,B,C";
     history t :=
       if String.eqb t "GAP" then Ok gap_history
       else if String.eqb t "DOWN" then Raise "connection refused"
       else Ok [];
     news t := if String.eqb t "GAP" then Ok (Some gap_news) else Ok None;
     utcnow := 1717200000 * 1000000;
     fromisoformat := Iso.parse |}.

(** The universe goes from [A,B,C] to [B,C,D]. *)
Definition diff_world : world Q :=
  {| read_file p := Ok "B,C,D";
     popen_read cmd := "A,B,C";
     history t := Ok [];
     news t := Ok None;
     utcnow := 1717200000 * 1000000;
     fromisoformat := Iso.parse |}.

(** The rows of the ranking example: (overall, fresh, vol_ratio). *)
Definition rank_row (t : string) (overall fresh vol : Q) : gmap string (value Q) :=
  list_to_map [ ("ticker", VStr t); ("overall", VFloat overall);
                ("fresh_catalyst_score", VFloat fresh);
                ("vol_ratio", VFloat vol) ].

Definition rank_rows : list (gmap string (value Q)) :=
  [ rank_row "a" 5 3 1; rank_row "b" 5 3 2; rank_row "c" 5 2 9 ].

(** A row whose [vol_ratio] is [None], in front of a row that has one. *)
Definition rank_row_no_vol (t : string) (overall fresh : Q)
  : gmap string (value Q) :=
  list_to_map [ ("ticker", VStr t); ("overall", VFloat overall);
                ("fresh_catalyst_score", VFloat fresh);
                ("vol_ratio", VNone) ].

Definition rank_rows_absent : list (gmap string (value Q)) :=
  [ rank_row_no_vol "n" 5 3; rank_row "a" 5 3 1 ].

(** A first run: there is no previous universe and the command prints
    nothing. *)
Definition first_run : world Q :=
  {| read_file p := Ok "B,C,D";
     popen_read cmd := EmptyString;
     history t := Ok [];
     news t := Ok None;
     utcnow := 1717200000 * 1000000;
     fromisoformat := Iso.parse |}.
End Example.

(** ** What the further properties are stated with *)

(** Every character of [s] passes [P]. *)
Fixpoint string_forall (P : ascii -> bool) (s : string) : bool :=
  match s with
  | EmptyString => true
  | String c s' => P c && string_forall P s'
  end.

Definition starts_with_space (s : string) : bool :=
  match s with
  | EmptyString => false
  | String c _ => is_space c
  end.

Fixpoint ends_with_space (s : string) : bool :=
  match s with
  | EmptyString => false
  | String c EmptyString => is_space c
  | String _ s' => ends_with_space s'
  end.

Definition is_comma (c : ascii) : bool := Ascii.eqb c ",".

(** A ticker as the loader returns it: not empty, free of commas and line
    breaks, and with no white space at either end. *)
Definition well_formed_ticker (t : string) : Prop :=
  t <> EmptyString
  /\ string_forall (fun c => negb (is_comma c) && negb (is_linebreak c)) t = true
  /\ starts_with_space t = false
  /\ ends_with_space t = false.

(** A symbol as one writes it in the universe file: not empty, free of
    commas and of white space (line breaks are white space). *)
Definition plain_symbol (t : string) : bool :=
  nonempty t && string_forall (fun c => negb (is_comma c) && negb (is_space c)) t.

Definition newline : string := String (ascii_of_N 10) EmptyString.

(** The text of a universe file that lists the given symbols, one list per
    line, the symbols of a line separated by commas. *)
Definition universe_text (lines : list (list string)) : string :=
  String.concat newline (String.concat "," <$> lines).

(** The loop passes over the item [n]: its timestamp is missing or
    unreadable, or it was published before the cutoff. *)
Definition skipped {F : Type} `{PyFloat F} (fromiso : string -> option datetime)
    (n : NewsItem F) (since : datetime) : Prop :=
  match parse_ts fromiso (py_or (providerPublishTime n) (published n)) with
  | None => True
  | Some d => dt_lt d since = Ok true
  end.

(** The binary64 float of [j + 0.5]. *)
Definition half_odd (j : nat) : B64.t := flit (2 * Z.of_nat j + 1) 2.

(** The [overall] of a scored row, from the metrics and the news score. *)
Definition composite_overall {F : Type} `{PyFloat F} (gap vol news_score : F) : F :=
  let fresh := fresh_of news_score in
  let inst := inst_of gap vol in
  let justified := justified_of fresh inst in
  let rerate := rerate_of fresh inst in
  overall_of fresh inst justified rerate.

(** The three shapes of a row, as bands of the ranking: a scored row, the
    row of a ticker without history, a failure row. *)
Inductive row_band : gmap string (value Q) -> nat -> Prop :=
| band_scored (t : string) (m : MetricResult Q) (ns : Q) :
    (0 <= ns)%Q -> row_band (scored_row t m ns) 0
| band_insufficient (t : string) : row_band (insufficient_row t) 1
| band_failure (t e : string) : row_band (error_row t e) 2.

(** [x] ties with [r] on every key of [by_]. *)
Definition same_rank (by_ : list string) (r x : gmap string (value Q)) : bool :=
  match lex_cmp by_ x r with
  | Eq => true
  | _ => false
  end.

(** The column [ticker] of a list of rows. *)
Definition ticker_column {F : Type} (rows : list (gmap string (value F)))
  : list (option (value F)) :=
  (fun r => r !! "ticker") <$> rows.

(** More inputs for the examples. *)
Module Example2.
(** A universe file of two lines. *)
Definition two_lines : list (list string) := [ [ "AAPL"; "MSFT" ]; [ "GOOG" ] ].

Definition world_of (file : result string)
    (hist : string -> result (list (PriceBar Q))) : world Q :=
  {| read_file p := file;
     popen_read cmd := EmptyString;
     history := hist;
     news t := Ok None;
     utcnow := 1717200000 * 1000000;
     fromisoformat := Iso.parse |}.

Definition listed : world Q :=
  world_of (Ok (universe_text two_lines)) (fun _ => Ok []).

Definition no_file : world Q :=
  world_of (Raise "No such file or directory") (fun _ => Ok []).

Definition empty_file : world Q := world_of (Ok EmptyString) (fun _ => Ok []).

Definition outage : world Q :=
  world_of (Ok "AAPL,MSFT") (fun _ => Raise "connection refused").

(** The ranked frame and the diff of [Example.market]. *)
Definition market_frame : DataFrame Q :=
  let rows := build_rows Example.market [ "GAP"; "THIN"; "DOWN" ] in
  {| columns := columns (DataFrame_of rows);
     records := stable_sort SORT_KEYS rows |}.

Definition market_diff : list string * list string :=
  ([ "DOWN"; "GAP"; "THIN" ], [ "A"; "B"; "C" ]).

Definition gap_metrics : MetricResult Q :=
  {| gap_pct := (12 # 100)%Q; vol_ratio := (125000 # 51500)%Q;
     close := 115%Q; date := "2024-05-31" |}.

(** In binary64: fifty-one sessions at a volume of 4.8, then one at 9.8. *)
Definition fractional_history : list (PriceBar B64.t) :=
  (replicate 51 {| bar_date := "2024-05-01"; Open := flit 100 1;
                   Close := flit 100 1; Volume := flit 48 10 |}
   ++ [ {| bar_date := "2024-05-31"; Open := flit 112 1;
           Close := flit 115 1; Volume := flit 98 10 |} ])%list.
End Example2.

(** * Properties *)

(** ** MetricsEngine *)

Lemma Qltb_lt (x y : Q) : Qltb x y = true <-> (x < y)%Q.
Proof.
  unfold Qltb. rewrite negb_true_iff, <- not_true_iff_false, Qle_bool_iff.
  split; [apply Qnot_le_lt | apply Qlt_not_le].
Qed.


Lemma Qle_bool_false (x y : Q) : Qle_bool x y = false -> (y < x)%Q.
Proof.
  intros Hf. apply Qnot_le_lt. intros Hle. apply Qle_bool_iff in Hle. congruence.
Qed.


Lemma Qltb_false (x y : Q) : Qltb x y = false -> (y <= x)%Q.
Proof.
  intros Hf. apply Qnot_lt_le. intros Hlt. apply Qltb_lt in Hlt. congruence.
Qed.


(** *** The running sum of [roll_mean], in exact arithmetic *)

Section RollingFacts.
Local Open Scope list_scope.
Local Open Scope Q_scope.

Lemma fold_Qplus_acc (l : list Q) (a : Q) :
  fold_left Qplus l a == a + fold_left Qplus l 0.
Proof.
  revert a. induction l as [| x l IH]; intros a; simpl.
  - ring.
  - rewrite IH, (IH (0 + x)). ring.
Qed.

Lemma fsum_Q_cons (x : Q) (l : list Q) : fsum (x :: l) == x + fsum l.
Proof.
  unfold fsum. simpl. rewrite fold_Qplus_acc. change (flit 0 1) with 0. ring.
Qed.

Lemma fsum_Q_snoc (l : list Q) (x : Q) : fsum (l ++ [x]) = fsum l + x.
Proof. unfold fsum. now rewrite fold_left_app. Qed.

Lemma fsum_Q_same (l : list Q) (p : Q) :
  Forall (fun v => v == p) l -> fsum l == inject_Z (Z.of_nat (length l)) * p.
Proof.
  induction 1 as [| x l Hx _ IH].
  - unfold fsum. simpl. change (flit 0 1) with 0. ring.
  - rewrite fsum_Q_cons, IH, Hx. cbn [length]. rewrite Nat2Z.inj_succ.
    unfold Z.succ. rewrite inject_Z_plus. ring.
Qed.

Lemma negatives_app (l l' : list Q) :
  negatives (l ++ l') = (negatives l + negatives l')%nat.
Proof. unfold negatives. now rewrite List.filter_app, length_app. Qed.

Lemma negatives_le (l : list Q) : (negatives l <= length l)%nat.
Proof. apply List.filter_length_le. Qed.

Lemma fsum_Q_nonneg (l : list Q) : negatives l = 0%nat -> 0 <= fsum l.
Proof.
  induction l as [| x l IH]; intros Hn.
  - unfold fsum. simpl. apply Qle_refl.
  - rewrite fsum_Q_cons. unfold negatives in Hn. simpl in Hn.
    destruct (Qltb x 0) eqn:Hx; [discriminate Hn |].
    apply Qltb_false in Hx. specialize (IH Hn). lra.
Qed.

Lemma fsum_Q_nonpos (l : list Q) : negatives l = length l -> fsum l <= 0.
Proof.
  induction l as [| x l IH]; intros Hn.
  - unfold fsum. simpl. apply Qle_refl.
  - rewrite fsum_Q_cons. unfold negatives in Hn. simpl in Hn.
    destruct (Qltb x 0) eqn:Hx.
    + apply Qltb_lt in Hx. simpl in Hn. injection Hn as Hn.
      specialize (IH Hn). lra.
    + pose proof (negatives_le l) as Hle. unfold negatives in Hle. lia.
Qed.

Lemma feqb_Q (a b : Q) : feqb a b = true <-> a == b.
Proof.
  unfold feqb. rewrite andb_true_iff. change fleb with Qle_bool.
  rewrite !Qle_bool_iff. split; [intros [? ?]; now apply Qle_antisym |].
  intros ->. split; apply Qle_refl.
Qed.

Lemma feqb_Q_refl (a : Q) : feqb a a = true.
Proof. now apply feqb_Q. Qed.

Lemma signbit_Q (a : Q) : signbit a = Qltb a 0.
Proof.
  unfold signbit. change fltb with Qltb. change (flit 0 1) with 0.
  destruct (Qltb a 0) eqn:Ha; [reflexivity |]. simpl.
  apply Qltb_false in Ha. apply not_true_is_false. intros Hlt.
  apply Qltb_lt in Hlt. change fdiv with Qdiv in Hlt.
  change (flit 1 1) with 1 in Hlt.
  pose proof (Qinv_le_0_compat a Ha) as Hinv. unfold Qdiv in Hlt. lra.
Qed.

(** No rational is an infinity or a NaN. *)
Lemma prep_value_Q (xs : list Q) : prep_value <$> xs = xs.
Proof.
  induction xs as [| x xs IH]; [reflexivity |].
  cbn [fmap list_fmap]. fold (fmap (M:=list) (prep_value (F:=Q))).
  rewrite IH. unfold prep_value. now rewrite feqb_Q_refl.
Qed.

Lemma add_mean_tracks (l : list Q) (st : roll_state Q) (val : Q) :
  tracks l st -> tracks (l ++ [val]) (add_mean val st).
Proof.
  intros (Hn & Hs & Hca & Hcr & Hneg). unfold add_mean.
  rewrite feqb_Q_refl, signbit_Q.
  repeat split; cbn [nobs sum_x neg_ct compensation_add compensation_remove].
  - rewrite Hn, length_app. simpl. lia.
  - rewrite fsum_Q_snoc. change fadd with Qplus. change fsub with Qminus.
    rewrite Hs, Hca. ring.
  - change fadd with Qplus. change fsub with Qminus. ring.
  - exact Hcr.
  - rewrite negatives_app, Hneg.
    assert (Hv : negatives [val] = if Qltb val 0 then 1%nat else 0%nat)
      by (unfold negatives; simpl; now destruct (Qltb val 0)).
    rewrite Hv. destruct (Qltb val 0); lia.
Qed.

Lemma remove_mean_tracks (old : Q) (l : list Q) (st : roll_state Q) :
  tracks (old :: l) st -> tracks l (remove_mean old st).
Proof.
  intros (Hn & Hs & Hca & Hcr & Hneg). unfold remove_mean.
  rewrite feqb_Q_refl, signbit_Q.
  repeat split; cbn [nobs sum_x neg_ct compensation_add compensation_remove].
  - rewrite Hn. simpl length. lia.
  - unfold fneg. change fadd with Qplus. change fsub with Qminus.
    change fmul with Qmult. change (flit (-1) 1) with (-1 # 1).
    rewrite Hs, Hcr, fsum_Q_cons. ring.
  - exact Hca.
  - change fadd with Qplus. change fsub with Qminus. ring.
  - rewrite Hneg.
    assert (Hv : negatives (old :: l)
                 = ((if Qltb old 0 then 1 else 0) + negatives l)%nat)
      by (unfold negatives; simpl; now destruct (Qltb old 0)).
    rewrite Hv. destruct (Qltb old 0); lia.
Qed.

Lemma add_mean_same_run (pre : list Q) (st : roll_state Q) (val : Q) :
  same_run pre st -> same_run (pre ++ [val]) (add_mean val st).
Proof.
  intros (k & Hk & Hle & Hall). unfold add_mean, same_run.
  rewrite feqb_Q_refl. cbn [num_consecutive_same_value prev_value].
  rewrite length_app. simpl length.
  destruct (feqb val (prev_value st)) eqn:Heq.
  - apply feqb_Q in Heq. exists (S k). split; [lia | split; [lia |]].
    replace (length pre + 1 - S k)%nat with (length pre - k)%nat by lia.
    rewrite drop_app_le by lia. apply Forall_app. split.
    + eapply Forall_impl; [exact Hall |]. intros v Hv. simpl in Hv.
      now rewrite Hv, Heq.
    + constructor; [apply Qeq_refl | constructor].
  - exists 1%nat. split; [reflexivity | split; [lia |]].
    replace (length pre + 1 - 1)%nat with (length pre) by lia.
    rewrite drop_app_length. constructor; [apply Qeq_refl | constructor].
Qed.

Lemma remove_mean_same_run (pre : list Q) (st : roll_state Q) (old : Q) :
  same_run pre st -> same_run pre (remove_mean old st).
Proof. unfold remove_mean. now rewrite feqb_Q_refl. Qed.

(** The value [calc_mean] reads off a full window: the mean, whichever
    branch is taken. *)
Lemma calc_mean_Q (w : nat) (pre : list Q) (st : roll_state Q) :
  (1 <= w <= length pre)%nat ->
  tracks (window w pre) st -> same_run pre st ->
  exists a, calc_mean (Z.of_nat w) st = Some a
            /\ a == fsum (window w pre) / inject_Z (Z.of_nat w).
Proof.
  intros Hw (Hn & Hs & _ & _ & Hneg) (k & Hk & Hkle & Hall).
  assert (Hlen : length (window w pre) = w)
    by (unfold window; rewrite length_drop; lia).
  rewrite Hlen in Hn. unfold calc_mean. rewrite Hn, Hk, Hneg.
  assert (Hpos : (0 < Z.of_nat w)%Z) by lia.
  assert (HposQ : 0 < inject_Z (Z.of_nat w)).
  { change 0 with (inject_Z 0). now rewrite <- Zlt_Qlt. }
  replace (Z.of_nat w <=? Z.of_nat w)%Z with true by (symmetry; apply Z.leb_le; lia).
  replace (0 <? Z.of_nat w)%Z with true by (symmetry; apply Z.ltb_lt; lia).
  cbn [andb]. eexists. split; [reflexivity |].
  change fdiv with Qdiv. change (flit (Z.of_nat w) 1) with (inject_Z (Z.of_nat w)).
  change fltb with Qltb. change (flit 0 1) with 0.
  destruct (Z.of_nat w <=? Z.of_nat k)%Z eqn:Hrun.
  - apply Z.leb_le in Hrun.
    assert (Hsame : Forall (fun v => v == prev_value st) (window w pre)).
    { unfold window.
      replace (length pre - w)%nat with ((length pre - k) + (k - w))%nat by lia.
      rewrite <- drop_drop. now apply Forall_drop. }
    rewrite (fsum_Q_same _ _ Hsame), Hlen. field. lra.
  - assert (Hdiv : forall s : Q,
               s / inject_Z (Z.of_nat w) * inject_Z (Z.of_nat w) == s)
      by (intros s; field; lra).
    set (n := negatives (window w pre)) in *.
    destruct (Z.of_nat n =? 0)%Z eqn:Hz.
    + apply Z.eqb_eq in Hz.
      destruct (Qltb (sum_x st / inject_Z (Z.of_nat w)) 0) eqn:Hlt.
      * exfalso. apply Qltb_lt in Hlt.
        assert (H0 : 0 <= fsum (window w pre))
          by (apply fsum_Q_nonneg; fold n; lia).
        rewrite <- Hs in H0. specialize (Hdiv (sum_x st)). nra.
      * cbn [andb].
        replace (Z.of_nat n =? Z.of_nat w)%Z with false
          by (symmetry; apply Z.eqb_neq; lia).
        cbn [andb]. now rewrite Hs.
    + cbn [andb]. destruct (Z.of_nat n =? Z.of_nat w)%Z eqn:Hall_neg.
      * apply Z.eqb_eq in Hall_neg.
        destruct (Qltb 0 (sum_x st / inject_Z (Z.of_nat w))) eqn:Hgt.
        -- exfalso. apply Qltb_lt in Hgt.
           assert (H0 : fsum (window w pre) <= 0)
             by (apply fsum_Q_nonpos; fold n; lia).
           rewrite <- Hs in H0. specialize (Hdiv (sum_x st)). nra.
        -- cbn [andb]. now rewrite Hs.
      * cbn [andb]. now rewrite Hs.
Qed.

Lemma window_snoc (w : nat) (pre : list Q) (val : Q) :
  (1 <= w)%nat ->
  window w (pre ++ [val]) = drop (S (length pre) - w) pre ++ [val].
Proof.
  intros Hw. unfold window. rewrite length_app. simpl length.
  replace (length pre + 1 - w)%nat with (S (length pre) - w)%nat by lia.
  apply drop_app_le. lia.
Qed.

(** One turn of the loop keeps the state in step with the window. *)
Lemma roll_step_Q (w : nat) (values pre rest : list Q) (val : Q)
    (st : roll_state Q) :
  (1 <= w)%nat -> values = pre ++ val :: rest ->
  tracks (window w pre) st -> same_run pre st ->
  let st1 := if decide (w <= length pre)%nat
             then match values !! (length pre - w)%nat with
                  | Some old => remove_mean old st
                  | None => st
                  end
             else st in
  tracks (window w (pre ++ [val])) (add_mean val st1)
  /\ same_run (pre ++ [val]) (add_mean val st1).
Proof.
  intros Hw Hv Ht Hs st1. subst st1. rewrite window_snoc by exact Hw.
  destruct (decide (w <= length pre)%nat) as [Hfull | Hwarm].
  - destruct (lookup_lt_is_Some_2 pre (length pre - w)) as [old Hold]; [lia |].
    rewrite Hv, lookup_app_l by lia. rewrite Hold.
    split.
    + apply add_mean_tracks, (remove_mean_tracks old).
      unfold window in Ht. rewrite (drop_S _ _ _ Hold) in Ht.
      now replace (S (length pre) - w)%nat with (S (length pre - w)) by lia.
    + now apply add_mean_same_run, remove_mean_same_run.
  - split.
    + apply add_mean_tracks. unfold window in Ht.
      replace (length pre - w)%nat with 0%nat in Ht by lia.
      now replace (S (length pre) - w)%nat with 0%nat by lia.
    + now apply add_mean_same_run.
Qed.

Lemma roll_from_Q (w : nat) (values : list Q) :
  (1 <= w)%nat ->
  forall (rest pre : list Q) (st : roll_state Q) (j : nat),
    values = pre ++ rest ->
    tracks (window w pre) st -> same_run pre st ->
    (j < length rest)%nat -> (w <= length pre + S j)%nat ->
    exists a,
      roll_from w values (length pre) rest st !! j = Some (Some a)
      /\ a == fsum (window w (take (length pre + S j) values))
              / inject_Z (Z.of_nat w).
Proof.
  intros Hw rest.
  induction rest as [| val rest IH]; intros pre st j Hv Ht Hs Hj Hfull.
  - simpl in Hj. lia.
  - destruct (roll_step_Q w values pre rest val st Hw Hv Ht Hs) as [Ht' Hs'].
    cbn [roll_from]. cbv zeta.
    match type of Ht' with tracks _ ?s => set (st2 := s) in * end.
    destruct j as [| j].
    + cbn [lookup list_lookup].
      destruct (calc_mean_Q w (pre ++ [val]) st2) as (a & Ha & Hmean);
        [rewrite length_app; simpl; lia | exact Ht' | exact Hs' |].
      exists a. split; [now rewrite Ha |].
      rewrite Hmean, Hv.
      replace (pre ++ val :: rest) with ((pre ++ [val]) ++ rest)
        by now rewrite <- app_assoc.
      rewrite take_app_length'; [reflexivity |]. rewrite length_app. simpl. lia.
    + cbn [lookup list_lookup].
      replace (S (length pre)) with (length (pre ++ [val]))
        by (rewrite length_app; simpl; lia).
      destruct (IH (pre ++ [val]) st2 j) as (a & Ha & Hmean);
        [ now rewrite <- app_assoc | exact Ht' | exact Hs'
        | simpl in Hj; lia | rewrite length_app; simpl; lia |].
      exists a. split; [exact Ha |]. rewrite Hmean.
      rewrite length_app. simpl length.
      now replace (length pre + 1 + S j)%nat
        with (length pre + S (S j))%nat by lia.
Qed.

(** From position [w - 1] on, the rolling mean is the mean of the [w]
    values that end at the position. *)
Lemma rolling_mean_Q (w i : nat) (xs : list Q) :
  (1 <= w)%nat -> (i < length xs)%nat -> (w <= S i)%nat ->
  exists a,
    rolling_mean w xs !! i = Some (Some a)
    /\ a == fsum (window w (take (S i) xs)) / inject_Z (Z.of_nat w).
Proof.
  intros Hw Hi Hfull. unfold rolling_mean. rewrite prep_value_Q.
  destruct xs as [| x0 xs']; [simpl in Hi; lia |].
  apply (roll_from_Q w (x0 :: xs') Hw (x0 :: xs') [] (roll_start x0) i);
    [reflexivity | | | exact Hi | simpl; lia].
  - repeat split; try reflexivity.
  - exists 0%nat. repeat split; [simpl; lia | constructor].
Qed.

(** At the most recent session it is the trailing average. *)
Lemma rolling_mean_latest_Q (w : nat) (xs : list Q) :
  (1 <= w <= length xs)%nat ->
  exists a,
    rolling_mean w xs !! (length xs - 1)%nat = Some (Some a)
    /\ a == trailing_average w xs.
Proof.
  intros Hw.
  destruct (rolling_mean_Q w (length xs - 1) xs) as (a & Ha & Hmean); [lia .. |].
  exists a. split; [exact Ha |]. rewrite Hmean.
  replace (S (length xs - 1)) with (length xs) by lia.
  rewrite firstn_all. unfold trailing_average, mean, window.
  rewrite length_drop.
  replace (length xs - (length xs - w))%nat with w by lia.
  reflexivity.
Qed.
End RollingFacts.

Section MetricsFacts.
Context {F : Type} `{PyFloat F}.

Lemma length_roll_from (w : nat) (values rest : list F) (i : nat)
    (st : roll_state F) :
  length (roll_from w values i rest st) = length rest.
Proof.
  revert i st. induction rest as [| val rest IH]; intros i st; [reflexivity |].
  cbn [roll_from length]. now rewrite IH.
Qed.

(** The rolling mean has one entry for each value of the series. *)
Lemma length_rolling_mean (w : nat) (xs : list F) :
  length (rolling_mean w xs) = length xs.
Proof.
  unfold rolling_mean. rewrite <- (length_fmap prep_value xs).
  destruct (prep_value <$> xs); [reflexivity |]. apply length_roll_from.
Qed.

Lemma iloc_neg_lookup {A} (l : list A) (k : nat) (a : A) :
  (1 <= k <= length l)%nat -> l !! (length l - k)%nat = Some a ->
  iloc_neg l k = Ok a.
Proof.
  intros Hk Hl. unfold iloc_neg.
  destruct (decide _) as [_ | Hn]; [now rewrite Hl | lia].
Qed.

Lemma metrics_short (hist : list (PriceBar F)) :
  (length hist < VOL_SMA_WINDOW + 2)%nat -> metrics_of_history hist = Ok None.
Proof.
  intros Hlen. unfold metrics_of_history.
  destruct (decide _); [reflexivity | contradiction].
Qed.

(** The metrics of a long enough history, with [adv] the entry of the
    rolling mean at the most recent session. *)
Lemma metrics_long (hist : list (PriceBar F)) :
  (VOL_SMA_WINDOW + 2 <= length hist)%nat ->
  exists latest prev adv,
    hist !! (length hist - 1)%nat = Some latest
    /\ hist !! (length hist - 2)%nat = Some prev
    /\ rolling_mean VOL_SMA_WINDOW (Volume <$> hist) !! (length hist - 1)%nat
       = Some adv
    /\ metrics_of_history hist = Ok (Some {|
         gap_pct := ((Open latest - Close prev) / Close prev)%F;
         vol_ratio := (Volume latest / floor_at_one adv)%F;
         close := Close latest;
         date := bar_date latest |}).
Proof.
  intros Hlen. unfold VOL_SMA_WINDOW in Hlen.
  destruct (lookup_lt_is_Some_2 hist (length hist - 1)) as [latest Hlatest]; [lia |].
  destruct (lookup_lt_is_Some_2 hist (length hist - 2)) as [prev Hprev]; [lia |].
  set (ADV := rolling_mean VOL_SMA_WINDOW (Volume <$> hist)).
  assert (Hz : length (zip hist ADV) = length hist).
  { unfold ADV. rewrite length_zip_with, length_rolling_mean, length_fmap. lia. }
  destruct (lookup_lt_is_Some_2 ADV (length hist - 1)) as [adv Hadv].
  { unfold ADV. rewrite length_rolling_mean, length_fmap. lia. }
  destruct (lookup_lt_is_Some_2 ADV (length hist - 2)) as [a2 Ha2].
  { unfold ADV. rewrite length_rolling_mean, length_fmap. lia. }
  exists latest, prev, adv.
  split; [assumption | split; [assumption | split; [assumption |]]].
  unfold metrics_of_history.
  destruct (decide _) as [Hshort | _]; [unfold VOL_SMA_WINDOW in Hshort; lia |].
  fold ADV.
  rewrite (iloc_neg_lookup _ 1 (latest, adv));
    [| lia | rewrite Hz; apply lookup_zip_with_Some; eauto ].
  simpl.
  rewrite (iloc_neg_lookup _ 2 (prev, a2));
    [| lia | rewrite Hz; apply lookup_zip_with_Some; eauto ].
  reflexivity.
Qed.
End MetricsFacts.

(** In exact arithmetic the average volume [a] of a long enough history is
    the trailing average of the window. *)
Lemma metrics_long_Q (hist : list (PriceBar Q)) :
  (VOL_SMA_WINDOW + 2 <= length hist)%nat ->
  exists latest prev a,
    hist !! (length hist - 1)%nat = Some latest
    /\ hist !! (length hist - 2)%nat = Some prev
    /\ rolling_mean VOL_SMA_WINDOW (Volume <$> hist) !! (length hist - 1)%nat
       = Some (Some a)
    /\ (a == trailing_average VOL_SMA_WINDOW (Volume <$> hist))%Q
    /\ metrics_of_history hist = Ok (Some {|
         gap_pct := ((Open latest - Close prev) / Close prev)%F;
         vol_ratio := (Volume latest / pymax (flit 1 1) a)%F;
         close := Close latest;
         date := bar_date latest |}).
Proof.
  intros Hlen.
  destruct (metrics_long hist Hlen) as (latest & prev & adv & Hl & Hp & Hadv & Heq).
  destruct (rolling_mean_latest_Q VOL_SMA_WINDOW (Volume <$> hist))
    as (a & Ha & Hmean).
  { rewrite length_fmap. unfold VOL_SMA_WINDOW in *. lia. }
  rewrite length_fmap in Ha. rewrite Ha in Hadv. injection Hadv as <-.
  exists latest, prev, a. repeat split; assumption.
Qed.

(** C3. A history of fewer than [VOL_SMA_WINDOW + 2] bars gives the
    insufficient-data result and no metrics.  A history of at least that many
    bars gives the gap (latest open - previous close) / previous close,
    unclamped, and the volume ratio latest volume / max(1.0, ADV), where ADV
    is the entry of the rolling mean of the volume at the most recent
    session; both hold for every float instance.  In exact arithmetic that
    entry is the trailing average of the volume over the window that ends at
    the most recent session: the running sum of pandas computes the simple
    moving average, and in binary64 it is that average up to the rounding of
    its additions. *)
Theorem C3_metrics_engine :
  (forall (F : Type) (PF : PyFloat F) (hist : list (PriceBar F)),
      ((length hist < VOL_SMA_WINDOW + 2)%nat ->
       metrics_of_history hist = Ok None)
      /\ ((VOL_SMA_WINDOW + 2 <= length hist)%nat ->
          exists latest prev adv,
            hist !! (length hist - 1)%nat = Some latest
            /\ hist !! (length hist - 2)%nat = Some prev
            /\ rolling_mean VOL_SMA_WINDOW (Volume <$> hist)
                 !! (length hist - 1)%nat = Some adv
            /\ metrics_of_history hist = Ok (Some {|
                 gap_pct := ((Open latest - Close prev) / Close prev)%F;
                 vol_ratio := (Volume latest / floor_at_one adv)%F;
                 close := Close latest;
                 date := bar_date latest |})))
  /\ (forall hist : list (PriceBar Q),
        (VOL_SMA_WINDOW + 2 <= length hist)%nat ->
        exists latest prev a,
          hist !! (length hist - 1)%nat = Some latest
          /\ hist !! (length hist - 2)%nat = Some prev
          /\ rolling_mean VOL_SMA_WINDOW (Volume <$> hist)
               !! (length hist - 1)%nat = Some (Some a)
          /\ (a == trailing_average VOL_SMA_WINDOW (Volume <$> hist))%Q
          /\ metrics_of_history hist = Ok (Some {|
               gap_pct := ((Open latest - Close prev) / Close prev)%F;
               vol_ratio := (Volume latest / pymax (flit 1 1) a)%F;
               close := Close latest;
               date := bar_date latest |})).
Proof.
  split.
  - intros F PF hist. split.
    + apply metrics_short.
    + apply metrics_long.
  - apply metrics_long_Q.
Qed.

Lemma C3_metrics_engine_witness :
  metrics_of_history (F:=Q) [] = Ok None
  /\ exists latest prev a,
       Example.gap_history !! 51%nat = Some latest
       /\ Example.gap_history !! 50%nat = Some prev
       /\ rolling_mean VOL_SMA_WINDOW (Volume <$> Example.gap_history)
            !! 51%nat = Some (Some a)
       /\ (a == trailing_average VOL_SMA_WINDOW
                  (Volume <$> Example.gap_history))%Q
       /\ metrics_of_history Example.gap_history = Ok (Some {|
            gap_pct := ((Open latest - Close prev) / Close prev)%F;
            vol_ratio := (Volume latest / pymax (flit 1 1) a)%F;
            close := Close latest;
            date := bar_date latest |}).
Proof.
  split.
  - apply (proj1 (proj1 C3_metrics_engine Q QFloat [])).
    unfold VOL_SMA_WINDOW. simpl. lia.
  - apply (proj2 C3_metrics_engine Example.gap_history).
    unfold VOL_SMA_WINDOW. simpl. lia.
Defined.

(** A run in binary64 with volumes that are not integers: the running sum
    gives the average 4.9 and the ratio 2.0, where adding the fifty volumes
    of the window from left to right would not. *)
Example binary64_running_sum :
  exists m,
    metrics_of_history Example2.fractional_history = Ok (Some m)
    /\ vol_ratio m = flit 2 1
    /\ (flit 98 10
        / pymax (flit 1 1)
            (trailing_average VOL_SMA_WINDOW
               (Volume <$> Example2.fractional_history)))%F
       <> (flit 2 1 : B64.t).
Proof.
  eexists. split; [vm_compute; reflexivity |].
  split; [vm_compute; reflexivity |].
  intros Heq. vm_compute in Heq. discriminate Heq.
Qed.

(** ** The rows of [build] *)

Section BuildFacts.
Context {F : Type} `{PyFloat F}.
Implicit Types (W : world F) (t e : string) (r : gmap string (value F)).

(** What a turn of the loop that raises nothing went through. *)
Lemma try_ticker_Ok W t r :
  try_ticker W t = Ok r ->
  exists hist mo news_opt ns,
    history W t = Ok hist
    /\ metrics_of_history hist = Ok mo
    /\ news W t = Ok news_opt
    /\ get_news_score (fromisoformat W) (Some (default [] news_opt)) (since_ts W)
       = Ok ns
    /\ r = match mo with
           | None => insufficient_row t
           | Some m => scored_row t m ns
           end.
Proof.
  unfold try_ticker, compute_gap_and_volume_metrics. intros Hr.
  destruct (history W t) as [hist | e1]; [| discriminate]. simpl in Hr.
  destruct (metrics_of_history hist) as [mo | e2] eqn:Hm; [| discriminate].
  simpl in Hr.
  destruct (news W t) as [news_opt | e3]; [| discriminate]. simpl in Hr.
  destruct (get_news_score _ _ _) as [ns | e4] eqn:Hn; [| discriminate].
  simpl in Hr.
  exists hist, mo, news_opt, ns.
  split; [reflexivity | split; [exact Hm | split; [reflexivity |]]].
  split; [exact Hn |].
  destruct mo; congruence.
Qed.

(** A fetch that raises makes the turn raise. *)
Lemma try_ticker_history_raises W t e :
  history W t = Raise e -> try_ticker W t = Raise e.
Proof.
  intros Hh. unfold try_ticker, compute_gap_and_volume_metrics.
  now rewrite Hh.
Qed.

Lemma try_ticker_news_raises W t e hist :
  history W t = Ok hist -> news W t = Raise e ->
  exists e', try_ticker W t = Raise e'.
Proof.
  intros Hh Hn. unfold try_ticker, compute_gap_and_volume_metrics.
  rewrite Hh. simpl. destruct (metrics_of_history hist); simpl.
  - rewrite Hn. now exists e.
  - eauto.
Qed.

(** The loop appends one row for each ticker, in order. *)
Lemma build_rows_acc W (tickers : list string) (rows : list (gmap string (value F))) :
  fold_left (fun rows t => (rows ++ [row_of_ticker W t])%list) tickers rows
  = (rows ++ (row_of_ticker W <$> tickers))%list.
Proof.
  revert rows. induction tickers as [| t tickers IH]; intros rows; simpl.
  - now rewrite app_nil_r.
  - rewrite IH. now rewrite <- app_assoc.
Qed.

Lemma build_rows_map W (tickers : list string) :
  build_rows W tickers = row_of_ticker W <$> tickers.
Proof. unfold build_rows. now rewrite build_rows_acc. Qed.

Lemma scored_gap_field t (m : MetricResult F) (ns : F) :
  scored_row t m ns !! "gap_pct"
  = Some (VFloat (fround2 (gap_pct m * flit 100 1)%F)).
Proof. reflexivity. Qed.
End BuildFacts.

(** C1, as the code has it.  A ticker processed without an exception gives
    a row with [overall] and the three sub-scores [fresh_catalyst_score],
    [justified_story_score] and [rerating_potential] as numbers, and with no
    [institutional_interest_score]; when the price history is insufficient
    the three sub-scores and [overall] are 0.0. *)
Theorem C1_row_fields {F : Type} `{PyFloat F} (W : world F) (t : string)
    (r : gmap string (value F)) :
  try_ticker W t = Ok r ->
  Forall (has_float r) ("overall" :: SUB_SCORES)
  /\ r !! INSTITUTIONAL = None
  /\ (forall hist, history W t = Ok hist ->
        (length hist < VOL_SMA_WINDOW + 2)%nat ->
        Forall (fun k => r !! k = Some (VFloat (flit 0 1)))
               ("overall" :: SUB_SCORES)).
Proof.
  intros Hr.
  destruct (try_ticker_Ok W t r Hr) as (hist & mo & nopt & ns & Hh & Hm & _ & _ & ->).
  split; [| split].
  - destruct mo; repeat constructor; eexists; reflexivity.
  - destruct mo; reflexivity.
  - intros hist' Hh' Hshort. assert (hist' = hist) as -> by congruence.
    rewrite (metrics_short hist Hshort) in Hm. injection Hm as <-.
    repeat constructor.
Qed.

Lemma C1_row_fields_witness :
  Forall (has_float (insufficient_row (F:=Q) "THIN")) ("overall" :: SUB_SCORES)
  /\ insufficient_row (F:=Q) "THIN" !! INSTITUTIONAL = None
  /\ (forall hist, history Example.market "THIN" = Ok hist ->
        (length hist < VOL_SMA_WINDOW + 2)%nat ->
        Forall (fun k => insufficient_row (F:=Q) "THIN" !! k = Some (VFloat (flit 0 1)))
               ("overall" :: SUB_SCORES)).
Proof. apply (C1_row_fields Example.market "THIN"). reflexivity. Defined.

(** C1 as stated fails: neither the row of a ticker without history nor the
    row of a scored ticker has an [institutional_interest_score]. *)
Lemma C1_counterexample :
  try_ticker Example.market "THIN" = Ok (insufficient_row "THIN")
  /\ insufficient_row (F:=Q) "THIN" !! "institutional_interest_score" = None
  /\ exists r, try_ticker Example.market "GAP" = Ok r
               /\ r !! "institutional_interest_score" = None.
Proof.
  split; [reflexivity | split; [reflexivity |]].
  eexists. split; [vm_compute; reflexivity | reflexivity].
Qed.

(** C2, as the code has it.  For a scored ticker the [gap_pct] field of the
    row is [round(100 * gap, 2)], the gap as a percentage with two
    decimals, where the gap is (latest open - previous close) / previous
    close, signed and unclamped. *)
Theorem C2_gap_field {F : Type} `{PyFloat F} (W : world F) (t : string)
    (m : MetricResult F) (r : gmap string (value F)) :
  compute_gap_and_volume_metrics W t = Ok (Some m) ->
  try_ticker W t = Ok r ->
  r !! "gap_pct" = Some (VFloat (fround2 (gap_pct m * flit 100 1)%F))
  /\ exists hist latest prev,
       history W t = Ok hist
       /\ hist !! (length hist - 1)%nat = Some latest
       /\ hist !! (length hist - 2)%nat = Some prev
       /\ gap_pct m = ((Open latest - Close prev) / Close prev)%F.
Proof.
  intros Hm Hr.
  destruct (try_ticker_Ok W t r Hr) as (hist & mo & nopt & ns & Hh & Hmo & _ & _ & ->).
  unfold compute_gap_and_volume_metrics in Hm. rewrite Hh in Hm. simpl in Hm.
  rewrite Hmo in Hm. injection Hm as ->.
  split; [reflexivity |].
  destruct (decide (length hist < VOL_SMA_WINDOW + 2)%nat) as [Hshort | Hlong].
  - rewrite (metrics_short hist Hshort) in Hmo. discriminate.
  - destruct (metrics_long hist) as (latest & prev & adv & Hl & Hp & _ & Heq); [lia |].
    exists hist, latest, prev. repeat split; try assumption.
    rewrite Heq in Hmo. now injection Hmo as <-.
Qed.

Lemma C2_gap_field_witness :
  row_of_ticker Example.market "GAP" !! "gap_pct"
  = Some (VFloat (fround2 ((12 # 100) * flit 100 1)%F))
  /\ exists hist latest prev,
       history Example.market "GAP" = Ok hist
       /\ hist !! (length hist - 1)%nat = Some latest
       /\ hist !! (length hist - 2)%nat = Some prev
       /\ (12 # 100)%Q = ((Open latest - Close prev) / Close prev)%F.
Proof.
  apply (C2_gap_field Example.market "GAP"
           {| gap_pct := (12 # 100)%Q; vol_ratio := (125000 # 51500)%Q;
              close := 115%Q; date := "2024-05-31" |}).
  - vm_compute. reflexivity.
  - vm_compute. reflexivity.
Defined.

(** C2 as stated fails: with a previous close of 100 and an open of 112 the
    gap is 0.12 and the row says 12. *)
Lemma C2_counterexample :
  compute_gap_and_volume_metrics Example.market "GAP"
  = Ok (Some {| gap_pct := (12 # 100)%Q; vol_ratio := (125000 # 51500)%Q;
                close := 115%Q; date := "2024-05-31" |})
  /\ (exists r, try_ticker Example.market "GAP" = Ok r
                /\ r !! "gap_pct" = Some (VFloat (1200 # 100)%Q))
  /\ ~ ((1200 # 100) == (12 # 100))%Q.
Proof.
  split; [vm_compute; reflexivity | split].
  - eexists. split; vm_compute; reflexivity.
  - intros Heq. vm_compute in Heq. discriminate.
Qed.

(** A ticker whose fetch or computation raises does not stop the loop of
    lines 62 to 77: the loop yields one row per ticker, in order, and the row
    of that ticker has [overall] 0.0, the text of the exception under [error]
    and no other field but [ticker], so neither [gap_pct], [vol_ratio] nor a
    sub-score: a shape other than that of the row of a ticker without
    history. *)
Lemma failure_row_in_loop {F : Type} `{PyFloat F} (W : world F)
    (tickers : list string) :
  build_rows W tickers = row_of_ticker W <$> tickers
  /\ (forall t e, history W t = Raise e -> try_ticker W t = Raise e)
  /\ (forall t e hist, history W t = Ok hist -> news W t = Raise e ->
        exists e', try_ticker W t = Raise e')
  /\ forall t e, try_ticker W t = Raise e ->
       let r := row_of_ticker W t in
       r !! "ticker" = Some (VStr t)
       /\ r !! "overall" = Some (VFloat (flit 0 1))
       /\ r !! "error" = Some (VStr e)
       /\ dom r = {[ "ticker"; "overall"; "error" ]}
       /\ Forall (fun k => r !! k = None)
            ("gap_pct" :: "vol_ratio" :: INSTITUTIONAL :: SUB_SCORES)
       /\ dom r <> dom (insufficient_row (F:=F) t).
Proof.
  split; [apply build_rows_map |].
  split; [apply try_ticker_history_raises |].
  split; [apply try_ticker_news_raises |].
  intros t e He r. subst r. unfold row_of_ticker. rewrite He.
  split; [reflexivity |]. split; [reflexivity |]. split; [reflexivity |].
  split; [reflexivity |]. split; [repeat constructor |].
  intros Hd.
  assert (Hin : "error" ∈ dom (insufficient_row (F:=F) t)).
  { rewrite <- Hd. vm_compute. reflexivity. }
  vm_compute in Hin. discriminate.
Qed.

Lemma failure_row_in_loop_example :
  let r := row_of_ticker Example.market "DOWN" in
  r !! "ticker" = Some (VStr "DOWN")
  /\ r !! "overall" = Some (VFloat (flit 0 1))
  /\ r !! "error" = Some (VStr "connection refused")
  /\ dom r = {[ "ticker"; "overall"; "error" ]}
  /\ Forall (fun k => r !! k = None)
       ("gap_pct" :: "vol_ratio" :: INSTITUTIONAL :: SUB_SCORES)
  /\ dom r <> dom (insufficient_row (F:=Q) "DOWN").
Proof.
  apply (failure_row_in_loop Example.market [ "GAP"; "THIN"; "DOWN" ]).
  reflexivity.
Qed.

(** C8. The run is aborted when every ticker fails.  With the universe
    [AAPL,MSFT] and a provider that refuses every connection, the loop
    yields the two failure rows of the claim, each with [ticker], [overall]
    0.0 and [error] only; the frame made of them has no column
    [fresh_catalyst_score], so the sort of line 79 raises [KeyError] and
    [build] returns neither rows nor diff. *)
Theorem C8_run_aborts_when_every_ticker_fails :
  load_tickers Example2.outage UNIVERSE_FILE = Ok [ "AAPL"; "MSFT" ]
  /\ build_rows Example2.outage [ "AAPL"; "MSFT" ]
     = [ error_row "AAPL" "connection refused";
         error_row "MSFT" "connection refused" ]
  /\ columns (DataFrame_of (build_rows Example2.outage [ "AAPL"; "MSFT" ]))
     = {[ "ticker"; "overall"; "error" ]}
  /\ build Example2.outage = Raise "'fresh_catalyst_score'".
Proof.
  split; [vm_compute; reflexivity |].
  split; [vm_compute; reflexivity |].
  split; [vm_compute; reflexivity |].
  vm_compute. reflexivity.
Qed.

(** ** CompositeScorer *)


Lemma tiers_of_distinct {F : Type} `{PyFloat F} :
  tier_values_distinct F -> forall gap vol : F, tiers_spec gap vol.
Proof.
  intros (H53 & H51 & H50 & H31 & H30 & H10) gap vol.
  unfold tiers_spec, inst_of, tier_5, tier_3, tier_1_5,
    GAP_THRESHOLD, VOL_RATIO_GOOD.
  destruct ((gap >=? flit 10 100)%F && (vol >=? flit 2 1)%F);
    [| destruct ((gap >=? flit 5 100)%F && (vol >=? flit 15 10)%F);
       [| destruct (vol >=? flit 12 10)%F ] ];
    (split; [tauto |]); repeat split;
    try tauto; try discriminate; try congruence;
    try (intros (? & ?); discriminate);
    try (intros (? & ? & ?); discriminate).
Qed.

Lemma distinct_Q : tier_values_distinct Q.
Proof. unfold tier_values_distinct. simpl. repeat split; discriminate. Qed.

Lemma distinct_B64 : tier_values_distinct B64.t.
Proof.
  unfold tier_values_distinct. repeat split; intros Heq;
    vm_compute in Heq; discriminate.
Qed.

(** C5. For every pair (gap_pct, vol_ratio) the institutional score is one
    of 5.0, 3.0, 1.5 and 0.0, and it is 5.0 exactly when gap_pct >= 0.10 and
    vol_ratio >= 2.0; 3.0 exactly when that fails and gap_pct >= 0.05 and
    vol_ratio >= 1.5; 1.5 exactly when both fail and vol_ratio >= 1.2; 0.0
    exactly when all three fail.  So the tiers exclude one another and cover
    every pair.  It holds of the rationals and of the binary64 floats, NaN
    and the infinities among them. *)
Theorem C5_institutional_tiers :
  (forall gap vol : Q, tiers_spec gap vol)
  /\ (forall gap vol : B64.t, tiers_spec gap vol).
Proof.
  split.
  - apply tiers_of_distinct, distinct_Q.
  - apply tiers_of_distinct, distinct_B64.
Qed.

(** C10. With gap_pct = 0.12, vol_ratio = 2.5 and news_score = 4.0 the
    scorer gives fresh = 4.0, institutional = 5.0, justified = 4.0,
    rerating = 5.0 and overall = round(4.0*0.40 + 5.0*0.35 + 4.0*0.15 +
    5.0*0.10, 2) = 4.45, in exact arithmetic and in binary64 alike. *)
Theorem C10_worked_example :
  composite_example (F:=Q) /\ composite_example (F:=B64.t).
Proof.
  split; vm_compute; repeat split.
Qed.

(** ** NewsScorer *)

Lemma pymin_Q (a b : Q) :
  pymin a b = if Qltb b a then b else a.
Proof. reflexivity. Qed.

Lemma pymin_Q_le (a b c : Q) : (c <= a)%Q -> (c <= b)%Q -> (c <= pymin a b)%Q.
Proof. intros Ha Hb. rewrite pymin_Q. now destruct (Qltb b a). Qed.

Lemma pymin_Q_le_r (a b : Q) : (pymin a b <= b)%Q.
Proof.
  rewrite pymin_Q. destruct (Qltb b a) eqn:Hlt; [apply Qle_refl |].
  apply Qnot_lt_le. intros Hba. apply Qltb_lt in Hba. congruence.
Qed.

Lemma pymin_Q_mono (a a' b : Q) : (a <= a')%Q -> (pymin a b <= pymin a' b)%Q.
Proof.
  intros Haa. rewrite !pymin_Q.
  destruct (Qltb b a) eqn:H1, (Qltb b a') eqn:H2; try apply Qle_refl; try assumption.
  - apply Qltb_lt in H1. exfalso.
    assert (Hn : ~ (b < a')%Q) by (rewrite <- Qltb_lt; congruence).
    apply Hn. eapply Qlt_le_trans; eassumption.
  - apply Qltb_lt in H2.
    apply Qnot_lt_le. intros Hba. apply Qltb_lt in Hba. congruence.
Qed.

Section NewsFacts.
Variable fromiso : string -> option datetime.
Implicit Types (items : list (NewsItem Q)) (n : NewsItem Q) (since : datetime).

(** The running sum of one title never goes down. *)
Lemma keyword_fold_ge (t : string) (kws : list string) (s : Q) :
  (s <= fold_left (fun s kw => if is_substring kw t then (s + flit 1 1)%F else s)
          kws s)%Q.
Proof.
  revert s. induction kws as [| kw kws IH]; intros s; simpl.
  - apply Qle_refl.
  - destruct (is_substring kw t).
    + eapply Qle_trans; [| apply IH]. lra.
    + apply IH.
Qed.

(** A title that counts contributes between 0.5 and 3.0. *)
Lemma keyword_score_bounds (t : string) :
  ((1 # 2) <= keyword_score (F:=Q) t <= 3)%Q.
Proof.
  unfold keyword_score. split.
  - apply pymin_Q_le.
    + eapply Qle_trans; [| apply keyword_fold_ge].
      change (flit 5 10) with (5 # 10)%Q. lra.
    + change (flit 3 1) with 3%Q. lra.
  - apply pymin_Q_le_r.
Qed.

Lemma score_items_app items1 items2 since (acc : Q) :
  score_items fromiso (items1 ++ items2) since acc
  = score_items fromiso items1 since acc ≫= score_items fromiso items2 since.
Proof.
  revert acc. induction items1 as [| n items1 IH]; intros acc; simpl.
  - reflexivity.
  - destruct (py_or _ _); try apply IH;
      (destruct (parse_ts fromiso _) as [d |]; [| apply IH];
       destruct (dt_lt d since) as [[] | e]; simpl; [apply IH | apply IH | reflexivity]).
Qed.

(** The sum only grows along the list. *)
Lemma score_items_ge items since (acc s : Q) :
  score_items fromiso items since acc = Ok s -> (acc <= s)%Q.
Proof.
  revert acc. induction items as [| n items IH]; intros acc; simpl.
  - intros [= ->]. apply Qle_refl.
  - destruct (py_or _ _); try apply IH;
      (destruct (parse_ts fromiso _) as [d |]; [| apply IH];
       destruct (dt_lt d since) as [[] | e]; simpl; [apply IH | | discriminate];
       intros Hs; apply IH in Hs;
       pose proof (keyword_score_bounds (title_of n)) as [Hk _];
       simpl in Hs; lra).
Qed.


Lemma score_items_total items since (acc : Q) :
  Forall (fun n => comparable fromiso n since) items ->
  exists s, score_items fromiso items since acc = Ok s.
Proof.
  intros Hall. revert acc.
  induction Hall as [| n items Hn _ IH]; intros acc; simpl.
  - eauto.
  - unfold comparable in Hn.
    destruct (py_or _ _) eqn:Hts; try apply IH;
      (destruct (parse_ts fromiso _) as [d |] eqn:Hp; [| apply IH];
       unfold dt_lt; rewrite (Hn d eq_refl), eqb_reflx; simpl;
       destruct (instant d <? instant since)%Z; apply IH).
Qed.
End NewsFacts.


Lemma keyword_fold_count (t : string) (kws : list string) (s : Q) :
  (fold_left (fun s kw => if is_substring kw t then (s + flit 1 1)%F else s) kws s
   == s + inject_Z (Z.of_nat (length (List.filter (fun kw => is_substring kw t) kws))))%Q.
Proof.
  revert s. induction kws as [| kw kws IH]; intros s.
  - simpl. ring.
  - cbn [fold_left List.filter]. rewrite IH. destruct (is_substring kw t).
    + cbn [length]. rewrite Nat2Z.inj_succ, <- Z.add_1_r, inject_Z_plus.
      change (flit 1 1) with 1%Q. simpl. ring.
    + reflexivity.
Qed.

(** A title contributes min(3.0, 0.5 + the number of keywords in it). *)
Lemma keyword_score_closed (t : string) :
  (keyword_score (F:=Q) t
   == Qmin 3 ((1 # 2) + inject_Z (Z.of_nat (keyword_count t))))%Q.
Proof.
  unfold keyword_score, keyword_count. rewrite pymin_Q.
  pose proof (keyword_fold_count t NEWS_KEYWORDS (flit 5 10)) as Hc.
  set (s := fold_left _ NEWS_KEYWORDS (flit 5 10)) in *.
  set (k := inject_Z _) in *. change (flit 5 10) with (5 # 10)%Q in Hc.
  change (flit 3 1) with 3%Q.
  destruct (Qltb 3 s) eqn:Hlt.
  - apply Qltb_lt in Hlt. symmetry. apply Q.min_l. lra.
  - assert (Hle : (s <= 3)%Q).
    { apply Qnot_lt_le. intros Hl. apply Qltb_lt in Hl. congruence. }
    rewrite Q.min_r by lra. lra.
Qed.

Lemma Qsum_skip (acc c rest s : Q) :
  (s == acc + rest)%Q -> (c == 0)%Q -> (s == acc + (c + rest))%Q.
Proof. intros -> ->. ring. Qed.

Lemma Qsum_count (acc k c rest s : Q) :
  (s == acc + k + rest)%Q -> (k == c)%Q -> (s == acc + (c + rest))%Q.
Proof. intros -> ->. ring. Qed.

(** Where every item can be placed against the cutoff, the loop returns the
    sum of the contributions: nothing for a missing or unreadable timestamp
    and for an item from before the cutoff. *)
Lemma score_items_closed (fromiso : string -> option datetime)
    (items : list (NewsItem Q)) (since : datetime) (acc : Q) :
  Forall (fun n => comparable fromiso n since) items ->
  exists s, score_items fromiso items since acc = Ok s
            /\ (s == acc + fold_right Qplus 0
                             ((fun n => contribution fromiso n since) <$> items))%Q.
Proof.
  intros Hall. revert acc.
  induction Hall as [| n items Hn _ IH]; intros acc.
  - exists acc. split; [reflexivity | simpl; ring].
  - unfold comparable in Hn. cbn [score_items fmap list_fmap fold_right].
    unfold contribution at 1.
    assert (Hskip : forall c : Q, (c == 0)%Q ->
              exists s, score_items fromiso items since acc = Ok s
                /\ (s == acc + (c + fold_right Qplus 0
                                  ((fun n => contribution fromiso n since) <$> items)))%Q).
    { intros c Hc. destruct (IH acc) as (s & Hs1 & Hs2). exists s.
      split; [exact Hs1 |]. now apply Qsum_skip. }
    destruct (parse_ts fromiso (py_or (providerPublishTime n) (published n)))
      as [d |] eqn:Hp.
    + assert (Hd : dt_lt d since = Ok (instant d <? instant since)%Z).
      { unfold dt_lt. now rewrite (Hn d eq_refl), eqb_reflx. }
      assert (Hgo : score_items fromiso items since
                      (if (instant d <? instant since)%Z then acc
                       else acc + keyword_score (title_of n))%Q
                    = match py_or (providerPublishTime n) (published n) with
                      | PNone => score_items fromiso items since acc
                      | _ => old ← dt_lt d since;
                             if (old : bool) then score_items fromiso items since acc
                             else score_items fromiso items since
                                    (acc + keyword_score (title_of n))%F
                      end).
      { destruct (py_or _ _); [discriminate | ..];
          rewrite Hd; simpl; now destruct (instant d <? instant since)%Z. }
      rewrite <- Hgo. destruct (instant d <? instant since)%Z.
      * apply Hskip. reflexivity.
      * destruct (IH (acc + keyword_score (title_of n))%Q) as (s & Hs1 & Hs2).
        exists s. split; [exact Hs1 |].
        exact (Qsum_count _ _ _ _ _ Hs2 (keyword_score_closed _)).
    + assert (Hgo : score_items fromiso items since acc
                    = match py_or (providerPublishTime n) (published n) with
                      | PNone => score_items fromiso items since acc
                      | _ => score_items fromiso items since acc
                      end) by now destruct (py_or _ _).
      rewrite <- Hgo. apply Hskip. reflexivity.
Qed.

(** C7. Whenever the scorer returns, its result lies in [0, 10], and the
    result for the list with one more item at its end is not smaller; it
    returns whenever every item can be placed against the cutoff, and an
    absent list scores 0. *)
Theorem C7_news_score_range_monotone (fromiso : string -> option datetime)
    (items : list (NewsItem Q)) (since : datetime) :
  (forall s, get_news_score fromiso (Some items) since = Ok s ->
     (0 <= s <= 10)%Q
     /\ forall n s',
          get_news_score fromiso (Some (items ++ [n])%list) since = Ok s' ->
          (s <= s')%Q)
  /\ (Forall (fun n => comparable fromiso n since) items ->
      exists s, get_news_score fromiso (Some items) since = Ok s)
  /\ get_news_score fromiso None since = Ok 0%Q.
Proof.
  unfold get_news_score. cbn [default from_option id]. split; [| split].
  - intros s Hs.
    destruct (score_items fromiso items since (flit 0 1)) as [sc | e] eqn:Hsc.
    2:{ simpl in Hs. discriminate Hs. }
    simpl in Hs. injection Hs as <-.
    pose proof (score_items_ge fromiso items since _ _ Hsc) as Hge.
    change (flit 0 1) with 0%Q in Hge. change (flit 10 1) with 10%Q.
    split.
    + split; [apply pymin_Q_le; lra | apply pymin_Q_le_r].
    + intros n s' Hs'. rewrite score_items_app, Hsc in Hs'.
      change (Ok sc ≫= score_items fromiso [n] since)
        with (score_items fromiso [n] since sc) in Hs'.
      destruct (score_items fromiso [n] since sc) as [sc' | e] eqn:Hsc'.
      2:{ simpl in Hs'. discriminate Hs'. }
      simpl in Hs'. injection Hs' as <-.
      apply pymin_Q_mono. exact (score_items_ge fromiso [n] since _ _ Hsc').
  - intros Hall.
    destruct (score_items_total fromiso items since (flit 0 1) Hall) as [sc ->].
    simpl. eauto.
  - reflexivity.
Qed.

Lemma C7_news_score_range_monotone_witness :
  ((0 <= 3 <= 10)%Q
   /\ forall n s',
        get_news_score Iso.parse (Some (Example.gap_news ++ [n])%list)
          (since_ts Example.market) = Ok s' ->
        (3 <= s')%Q)
  /\ exists s, get_news_score Iso.parse (Some Example.gap_news)
                 (since_ts Example.market) = Ok s.
Proof.
  split.
  - apply (proj1 (C7_news_score_range_monotone Iso.parse Example.gap_news
                    (since_ts Example.market)) 3%Q).
    vm_compute. reflexivity.
  - apply (proj1 (proj2 (C7_news_score_range_monotone Iso.parse Example.gap_news
                           (since_ts Example.market)))).
    repeat constructor; intros d Hd; vm_compute in Hd;
      try discriminate; injection Hd as <-; reflexivity.
Defined.

(** C6 at an item whose timestamp carries a UTC offset: the comparison with
    the naive cutoff raises, the item is neither skipped nor counted, and the
    ticker ends as a failure row. *)
Theorem C6_offset_timestamp_raises :
  parse_ts (F:=Q) Iso.parse (PStr "2024-05-30T12:00:00+00:00")
  = Some {| instant := 1717070400000000; aware := true |}
  /\ get_news_score Iso.parse (Some Example.offset_news) (since_ts Example.market)
     = Raise "can't compare offset-naive and offset-aware datetimes"
  /\ forall (fromiso : string -> option datetime) (n : NewsItem Q)
       (rest : list (NewsItem Q)) (since d : datetime),
       parse_ts fromiso (py_or (providerPublishTime n) (published n)) = Some d ->
       aware d <> aware since ->
       get_news_score fromiso (Some (n :: rest)) since
       = Raise "can't compare offset-naive and offset-aware datetimes".
Proof.
  split; [vm_compute; reflexivity | split; [vm_compute; reflexivity |]].
  intros fromiso n rest since d Hp Hne.
  unfold get_news_score. cbn [default from_option id score_items]. rewrite Hp.
  assert (Hd : dt_lt d since
               = Raise "can't compare offset-naive and offset-aware datetimes").
  { unfold dt_lt. destruct (aware d), (aware since); try reflexivity; congruence. }
  rewrite Hd. destruct (py_or _ _); [discriminate | reflexivity ..].
Qed.

(** ** Ranking *)

Lemma desc_cmp_Some (x y : Q) :
  ((y < x)%Q /\ desc_cmp (Some x) (Some y) = Lt)
  \/ ((x < y)%Q /\ desc_cmp (Some x) (Some y) = Gt)
  \/ ((x == y)%Q /\ desc_cmp (Some x) (Some y) = Eq).
Proof.
  unfold desc_cmp. change fltb with Qltb.
  destruct (Qltb y x) eqn:H1; [apply Qltb_lt in H1; auto |].
  destruct (Qltb x y) eqn:H2; [apply Qltb_lt in H2; auto |].
  right. right. split; [| reflexivity].
  assert (~ (y < x)%Q) by (rewrite <- Qltb_lt; congruence).
  assert (~ (x < y)%Q) by (rewrite <- Qltb_lt; congruence).
  lra.
Qed.

(** On one key the comparison says what the order with minus infinity says. *)
Lemma desc_cmp_ext (a b : option Q) :
  match desc_cmp a b with
  | Lt => ext_lt (ext_of b) (ext_of a)
  | Eq => ext_eq (ext_of a) (ext_of b)
  | Gt => ext_lt (ext_of a) (ext_of b)
  end.
Proof.
  destruct a as [x |], b as [y |]; try exact I.
  destruct (desc_cmp_Some x y) as [[? ->] | [[? ->] | [? ->]]]; assumption.
Qed.

Lemma ext_lt_irrefl (a b : ext) : ext_lt a b -> ext_lt b a -> False.
Proof. destruct a, b; simpl; try tauto. lra. Qed.

Lemma ext_lt_neq (a b : ext) : ext_lt a b -> ext_eq a b -> False.
Proof. destruct a, b; simpl; try tauto. lra. Qed.

Lemma ext_lt_neq' (a b : ext) : ext_lt a b -> ext_eq b a -> False.
Proof. destruct a, b; simpl; try tauto. lra. Qed.

(** And the other way round. *)
Lemma desc_cmp_Lt (a b : option Q) :
  desc_cmp a b = Lt <-> ext_lt (ext_of b) (ext_of a).
Proof.
  pose proof (desc_cmp_ext a b) as Hc. split.
  - intros Heq. now rewrite Heq in Hc.
  - intros Hlt. destruct (desc_cmp a b); [| reflexivity |].
    + destruct (ext_lt_neq' _ _ Hlt Hc).
    + destruct (ext_lt_irrefl _ _ Hlt Hc).
Qed.

Lemma desc_cmp_Eq (a b : option Q) :
  desc_cmp a b = Eq <-> ext_eq (ext_of a) (ext_of b).
Proof.
  pose proof (desc_cmp_ext a b) as Hc. split.
  - intros Heq. now rewrite Heq in Hc.
  - intros He. destruct (desc_cmp a b); [reflexivity | |].
    + destruct (ext_lt_neq' _ _ Hc He).
    + destruct (ext_lt_neq _ _ Hc He).
Qed.

Lemma desc_cmp_laws : cmp_laws (desc_cmp (F:=Q)).
Proof.
  split.
  - intros a b. destruct a as [x |], b as [y |]; try reflexivity.
    destruct (desc_cmp_Some x y) as [[? ->] | [[? ->] | [? ->]]],
             (desc_cmp_Some y x) as [[? ->] | [[? ->] | [? ->]]];
      try reflexivity; lra.
  - intros a b d. rewrite !desc_cmp_Lt.
    destruct (ext_of a), (ext_of b), (ext_of d); simpl; try tauto. lra.
  - intros a b d Hab. apply desc_cmp_Eq in Hab.
    destruct a as [x |], b as [y |]; simpl in Hab; try tauto.
    destruct d as [z |]; [| reflexivity].
    destruct (desc_cmp_Some x z) as [[? ->] | [[? ->] | [? ->]]],
             (desc_cmp_Some y z) as [[? ->] | [[? ->] | [? ->]]];
      try reflexivity; lra.
Qed.

Section Laws.
Context {A : Type} (c : A -> A -> comparison) (L : cmp_laws c).

Lemma cmp_eq_r (a b d : A) : c a b = Eq -> c d a = c d b.
Proof.
  intros Hab. rewrite (cmp_opp c L a d), (cmp_opp c L b d).
  f_equal. now apply (cmp_eq_l c L).
Qed.

Lemma cmp_total (a b : A) : c a b = Gt -> c b a = Lt.
Proof. intros Hab. now rewrite (cmp_opp c L a b), Hab. Qed.

Lemma cmp_le_trans (a b d : A) : c a b <> Gt -> c b d <> Gt -> c a d <> Gt.
Proof.
  intros Hab Hbd.
  destruct (c a b) eqn:E1; [| | congruence].
  - now rewrite (cmp_eq_l c L a b d E1).
  - destruct (c b d) eqn:E2; [| | congruence].
    + rewrite <- (cmp_eq_r b d a E2). congruence.
    + rewrite (cmp_lt_trans c L a b d E1 E2). discriminate.
Qed.
End Laws.

(** The comparison on several keys keeps the laws. *)
Lemma lex_cmp_laws (by_ : list string) : cmp_laws (lex_cmp (F:=Q) by_).
Proof.
  induction by_ as [| k by_ IH].
  - split; intros; reflexivity || assumption.
  - pose proof desc_cmp_laws as D. split.
    + intros r1 r2. simpl.
      rewrite (cmp_opp _ D (cell r1 k) (cell r2 k)).
      destruct (desc_cmp (cell r1 k) (cell r2 k)); simpl;
        [apply (cmp_opp _ IH) | reflexivity | reflexivity].
    + intros r1 r2 r3. simpl.
      destruct (desc_cmp (cell r1 k) (cell r2 k)) eqn:E1; [| | discriminate].
      * rewrite (cmp_eq_l _ D _ _ (cell r3 k) E1).
        destruct (desc_cmp (cell r2 k) (cell r3 k)); [| reflexivity | discriminate].
        apply (cmp_lt_trans _ IH).
      * intros _.
        destruct (desc_cmp (cell r2 k) (cell r3 k)) eqn:E2; [| | discriminate].
        -- rewrite <- (cmp_eq_r _ D _ _ (cell r1 k) E2), E1. reflexivity.
        -- intros _. now rewrite (cmp_lt_trans _ D _ _ _ E1 E2).
    + intros r1 r2 r3. simpl.
      destruct (desc_cmp (cell r1 k) (cell r2 k)) eqn:E1; [| discriminate ..].
      intros H12. rewrite (cmp_eq_l _ D _ _ (cell r3 k) E1).
      destruct (desc_cmp (cell r2 k) (cell r3 k)); [| reflexivity ..].
      now apply (cmp_eq_l _ IH).
Qed.

(** [goes_before] on the keys of [build] is the ranking of the
    specification. *)
Lemma goes_before_ranks (r1 r2 : gmap string (value Q)) :
  goes_before SORT_KEYS r1 r2 = true <-> ranks_before r1 r2.
Proof.
  unfold goes_before, SORT_KEYS, ranks_before, rank_key. cbn [lex_cmp].
  pose proof (desc_cmp_ext (cell r1 "overall") (cell r2 "overall")) as Ho.
  pose proof (desc_cmp_ext (cell r1 "fresh_catalyst_score")
                (cell r2 "fresh_catalyst_score")) as Hf.
  pose proof (desc_cmp_ext (cell r1 "vol_ratio") (cell r2 "vol_ratio")) as Hv.
  destruct (desc_cmp (cell r1 "overall") (cell r2 "overall")).
  - destruct (desc_cmp (cell r1 "fresh_catalyst_score")
                (cell r2 "fresh_catalyst_score")).
    + destruct (desc_cmp (cell r1 "vol_ratio") (cell r2 "vol_ratio")).
      * tauto.
      * tauto.
      * split; [discriminate |].
        intros [H1 | (_ & [H2 | (_ & [H3 | H3])])]; exfalso.
        -- eapply ext_lt_neq'; eassumption.
        -- eapply ext_lt_neq'; eassumption.
        -- eapply ext_lt_irrefl; eassumption.
        -- eapply ext_lt_neq; eassumption.
    + tauto.
    + split; [discriminate |].
      intros [H1 | (_ & [H2 | (H2 & _)])]; exfalso.
      * eapply ext_lt_neq'; eassumption.
      * eapply ext_lt_irrefl; eassumption.
      * eapply ext_lt_neq; eassumption.
  - tauto.
  - split; [discriminate |].
    intros [H1 | (H1 & _)]; exfalso.
    + eapply ext_lt_irrefl; eassumption.
    + eapply ext_lt_neq; eassumption.
Qed.

Section Sorting.
Variable by_ : list string.
Implicit Types (r : gmap string (value Q)) (l : list (gmap string (value Q))).

Lemma before_total r1 r2 : goes_before by_ r1 r2 = false -> before by_ r2 r1.
Proof.
  unfold before, goes_before. intros H12.
  destruct (lex_cmp by_ r1 r2) eqn:E; try discriminate.
  now rewrite (cmp_total _ (lex_cmp_laws by_) _ _ E).
Qed.

Lemma before_trans r1 r2 r3 :
  before by_ r1 r2 -> before by_ r2 r3 -> before by_ r1 r3.
Proof.
  unfold before, goes_before. intros H12 H23.
  assert (Hne : lex_cmp by_ r1 r3 <> Gt).
  { apply (cmp_le_trans _ (lex_cmp_laws by_) r1 r2 r3).
    - destruct (lex_cmp by_ r1 r2); congruence.
    - destruct (lex_cmp by_ r2 r3); congruence. }
  destruct (lex_cmp by_ r1 r3); congruence.
Qed.

Lemma insert_row_perm r l : insert_row by_ r l ≡ₚ r :: l.
Proof.
  induction l as [| r' l IH]; simpl.
  - reflexivity.
  - destruct (goes_before by_ r r'); [reflexivity |].
    rewrite IH. apply perm_swap.
Qed.

Lemma stable_sort_perm l : stable_sort by_ l ≡ₚ l.
Proof.
  induction l as [| r l IH]; simpl.
  - reflexivity.
  - unfold stable_sort in *. simpl. rewrite insert_row_perm. now rewrite IH.
Qed.

Lemma insert_row_sorted r l :
  StronglySorted (before by_) l ->
  StronglySorted (before by_) (insert_row by_ r l).
Proof.
  induction 1 as [| r' l Hl IH Hall]; simpl.
  - repeat constructor.
  - destruct (goes_before by_ r r') eqn:Hb.
    + constructor; [now constructor |].
      constructor; [exact Hb |].
      eapply Forall_impl; [exact Hall |].
      intros x Hx. eapply before_trans; [exact Hb | exact Hx].
    + constructor; [exact IH |].
      rewrite insert_row_perm. constructor; [| exact Hall].
      now apply before_total.
Qed.

Lemma stable_sort_sorted l : StronglySorted (before by_) (stable_sort by_ l).
Proof.
  induction l as [| r l IH]; simpl.
  - constructor.
  - apply insert_row_sorted, IH.
Qed.
End Sorting.

Lemma StronglySorted_iff {A} (R S : A -> A -> Prop) (l : list A) :
  (forall a b, R a b -> S a b) -> StronglySorted R l -> StronglySorted S l.
Proof.
  intros HRS. induction 1 as [| a l Hl IH Hall]; constructor; [assumption |].
  eapply Forall_impl; [exact Hall | auto].
Qed.

Lemma sort_values_Ok (df : DataFrame Q) (by_ : list string) :
  (forall k, k ∈ by_ -> k ∈ columns df) ->
  sort_values df by_
  = Ok {| columns := columns df; records := stable_sort by_ (records df) |}.
Proof.
  intros Hcols. unfold sort_values.
  destruct (List.find _ by_) as [k |] eqn:Hfind; [| reflexivity].
  apply List.find_some in Hfind as [Hin Hk].
  apply bool_decide_eq_true in Hk. destruct Hk.
  apply Hcols. now apply list_elem_of_In.
Qed.

Lemma sort_values_KeyError (df : DataFrame Q) (by_ : list string) (k : string) :
  k ∈ by_ -> k ∉ columns df -> exists e, sort_values df by_ = Raise e.
Proof.
  intros Hin Hk. unfold sort_values.
  destruct (List.find _ by_) as [k' |] eqn:Hfind; [eauto |].
  pose proof (List.find_none _ _ Hfind k) as Hnone. simpl in Hnone.
  rewrite bool_decide_eq_false in Hnone. exfalso. apply Hnone; [| exact Hk].
  now apply list_elem_of_In.
Qed.

(** C4. The rows come out of the sort as a rearrangement of the rows that
    went in, in descending order of (overall, fresh_catalyst_score,
    vol_ratio): ties on overall go by fresh_catalyst_score and the ties that
    remain by vol_ratio, an absent key counting as minus infinity.  The sort
    returns whenever the three keys are columns of the frame. *)
Theorem C4_ranking :
  (forall rows : list (gmap string (value Q)),
     Forall (fun k => k ∈ columns (DataFrame_of rows)) SORT_KEYS ->
     exists df,
       sort_values (DataFrame_of rows) SORT_KEYS = Ok df
       /\ records df ≡ₚ rows
       /\ StronglySorted ranks_before (records df))
  /\ sort_values (DataFrame_of Example.rank_rows) SORT_KEYS
     = Ok {| columns := columns (DataFrame_of Example.rank_rows);
             records := [ Example.rank_row "b" 5 3 2; Example.rank_row "a" 5 3 1;
                          Example.rank_row "c" 5 2 9 ] |}
  /\ sort_values (DataFrame_of Example.rank_rows_absent) SORT_KEYS
     = Ok {| columns := columns (DataFrame_of Example.rank_rows_absent);
             records := [ Example.rank_row "a" 5 3 1;
                          Example.rank_row_no_vol "n" 5 3 ] |}.
Proof.
  split.
  - intros rows Hcols. eexists.
    split; [apply sort_values_Ok; now apply Forall_forall |].
    simpl. split; [apply stable_sort_perm |].
    eapply StronglySorted_iff; [| apply stable_sort_sorted].
    intros a b. apply goes_before_ranks.
  - split; vm_compute; reflexivity.
Qed.

Lemma C4_ranking_witness :
  exists df,
    sort_values (DataFrame_of Example.rank_rows) SORT_KEYS = Ok df
    /\ records df ≡ₚ Example.rank_rows
    /\ StronglySorted ranks_before (records df).
Proof.
  apply (proj1 C4_ranking Example.rank_rows).
  apply (bool_decide_unpack _). vm_compute. exact I.
Defined.

(** ** UniverseDiffer *)

(** The comprehension of [compute_diff] reads a text as [load_tickers]
    does. *)
Lemma previous_tokens (txt : string) :
  (line ← splitlines txt; t ← split_comma line;
   if nonempty (strip t) then [strip t] else [])
  = parse_tickers txt.
Proof.
  unfold parse_tickers.
  induction (splitlines txt) as [| line lines IH]; [reflexivity |].
  cbn [mbind list_bind]. rewrite List.filter_app. f_equal; [| exact IH].
  induction (split_comma line) as [| t ts IHt]; [reflexivity |].
  cbn [mbind list_bind fmap list_fmap List.filter]. rewrite <- IHt.
  now destruct (nonempty (strip t)).
Qed.

Lemma sorted_perm (s : gset string) : sorted s ≡ₚ elements s.
Proof. apply merge_sort_Permutation. Qed.

Lemma elem_of_sorted (s : gset string) (x : string) : x ∈ sorted s <-> x ∈ s.
Proof. now rewrite sorted_perm, elem_of_elements. Qed.

Lemma NoDup_sorted (s : gset string) : NoDup (sorted s).
Proof. rewrite sorted_perm. apply NoDup_elements. Qed.

Lemma strictly_sorted (l : list string) :
  StronglySorted String.le l -> NoDup l -> StronglySorted str_lt l.
Proof.
  induction 1 as [| a l Hl IH Hall]; intros Hnd; [constructor |].
  apply NoDup_cons in Hnd as [Hnotin Hnd].
  constructor; [now apply IH |].
  apply Forall_forall. intros x Hx. split.
  - rewrite Forall_forall in Hall. now apply Hall.
  - intros ->. contradiction.
Qed.

Lemma sorted_strict (s : gset string) : StronglySorted str_lt (sorted s).
Proof.
  apply strictly_sorted; [| apply NoDup_sorted].
  apply StronglySorted_merge_sort; apply _.
Qed.

Lemma sorted_empty : sorted ∅ = [].
Proof. unfold sorted. now rewrite elements_empty. Qed.

(** C9. With the universe file readable, the differ returns added =
    current - previous and removed = previous - current, each in strictly
    ascending order of the strings, so sorted and without duplicates; when
    the command for the previous universe prints nothing (it failed, or
    there is no previous universe) the previous set is empty, nothing was
    removed and every current ticker was added.  From [A,B,C] to [B,C,D] it
    returns added [D] and removed [A]. *)
Theorem C9_universe_diff :
  (forall (F : Type) (HF : PyFloat F) (W : world F) (txt : string),
     read_file W UNIVERSE_FILE = Ok txt ->
     let cur : gset string := list_to_set (parse_tickers txt) in
     let prev : gset string := list_to_set (parse_tickers (popen_read W GIT_SHOW)) in
     exists added removed,
       compute_diff W = Ok (added, removed)
       /\ (forall x, x ∈ added <-> x ∈ cur /\ x ∉ prev)
       /\ (forall x, x ∈ removed <-> x ∈ prev /\ x ∉ cur)
       /\ StronglySorted str_lt added /\ StronglySorted str_lt removed
       /\ NoDup added /\ NoDup removed
       /\ (popen_read W GIT_SHOW = EmptyString ->
           prev = ∅ /\ removed = [] /\ forall x, x ∈ added <-> x ∈ cur))
  /\ compute_diff Example.diff_world = Ok ([ "D" ], [ "A" ])
  /\ compute_diff Example.first_run = Ok ([ "B"; "C"; "D" ], []).
Proof.
  split; [| split; vm_compute; reflexivity].
  intros F HF W txt Hread cur prev.
  exists (sorted (cur ∖ prev)), (sorted (prev ∖ cur)).
  split.
  { unfold compute_diff, load_tickers. rewrite Hread, previous_tokens.
    reflexivity. }
  split; [intros x; rewrite elem_of_sorted; apply elem_of_difference |].
  split; [intros x; rewrite elem_of_sorted; apply elem_of_difference |].
  split; [apply sorted_strict |]. split; [apply sorted_strict |].
  split; [apply NoDup_sorted |]. split; [apply NoDup_sorted |].
  intros Hempty.
  assert (Hprev : prev = ∅) by (subst prev; now rewrite Hempty).
  split; [exact Hprev |]. rewrite Hprev. split.
  - replace (∅ ∖ cur) with (∅ : gset string); [apply sorted_empty |].
    apply set_eq. intros x. rewrite elem_of_difference.
    split; [intros Hx | intros [Hx _]]; now apply not_elem_of_empty in Hx.
  - intros x. rewrite elem_of_sorted, elem_of_difference.
    split; [tauto |]. intros Hx. split; [exact Hx | apply not_elem_of_empty].
Qed.

Lemma C9_universe_diff_witness :
  let cur : gset string := list_to_set (parse_tickers "GAP,THIN,DOWN") in
  let prev : gset string := list_to_set (parse_tickers "A,B,C") in
  exists added removed,
    compute_diff Example.market = Ok (added, removed)
    /\ (forall x, x ∈ added <-> x ∈ cur /\ x ∉ prev)
    /\ (forall x, x ∈ removed <-> x ∈ prev /\ x ∉ cur)
    /\ StronglySorted str_lt added /\ StronglySorted str_lt removed
    /\ NoDup added /\ NoDup removed
    /\ (popen_read Example.market GIT_SHOW = EmptyString ->
        prev = ∅ /\ removed = [] /\ forall x, x ∈ added <-> x ∈ cur).
Proof.
  apply (proj1 C9_universe_diff Q QFloat Example.market "GAP,THIN,DOWN").
  reflexivity.
Defined.

(** ** Two remarks on the model *)

(** The binary64 instance rounds as the hardware does: 0.1 + 0.2 is the
    float above 0.3. *)
Example binary64_rounds :
  (flit 1 10 + flit 2 10)%F = S754_finite false 5404319552844596 (-54)
  /\ (flit 3 10 : B64.t) = S754_finite false 5404319552844595 (-54).
Proof. split; vm_compute; reflexivity. Qed.

(** The sort needs its keys among the columns: a frame of failure rows only
    has no [fresh_catalyst_score], and [sort_values] raises the [KeyError]. *)
Example failure_rows_only :
  sort_values (DataFrame_of [ error_row (F:=Q) "DOWN" "connection refused" ])
    SORT_KEYS
  = Raise "'fresh_catalyst_score'".
Proof. vm_compute. reflexivity. Qed.

(** * Further properties *)

(** ** UniverseLoader *)

Lemma string_forall_app (P : ascii -> bool) (s1 s2 : string) :
  string_forall P (s1 ++ s2) = string_forall P s1 && string_forall P s2.
Proof.
  induction s1 as [| c s1 IH]; simpl; [reflexivity |].
  now rewrite IH, andb_assoc.
Qed.

Lemma cons_first_forall (P : ascii -> bool) (c : ascii) (l : list string) :
  P c = true -> Forall (fun s => string_forall P s = true) l ->
  Forall (fun s => string_forall P s = true) (cons_first c l).
Proof.
  intros Hc Hl. destruct Hl as [| h t Hh Ht]; simpl.
  - repeat constructor. simpl. now rewrite Hc.
  - constructor; [simpl; now rewrite Hc, Hh | exact Ht].
Qed.

(** The pieces of [split] hold no comma, and nothing the line did not
    hold. *)
Lemma split_comma_forall (P : ascii -> bool) (s : string) :
  string_forall P s = true ->
  Forall (fun t => string_forall (fun c => negb (is_comma c) && P c) t = true)
         (split_comma s).
Proof.
  induction s as [| c s IH]; simpl; intros HP.
  - repeat constructor.
  - apply andb_true_iff in HP as [Hc Hs]. specialize (IH Hs).
    destruct (Ascii.eqb c ",") eqn:Hcomma.
    + constructor; [reflexivity | exact IH].
    + apply cons_first_forall; [| exact IH].
      unfold is_comma. now rewrite Hcomma, Hc.
Qed.

(** The lines of [splitlines] hold no line break. *)
Lemma splitlines_forall_fuel (n : nat) (s : string) :
  (String.length s <= n)%nat ->
  Forall (fun l => string_forall (fun c => negb (is_linebreak c)) l = true)
         (splitlines s).
Proof.
  revert s. induction n as [| n IH]; intros s Hlen.
  - destruct s; [constructor | simpl in Hlen; lia].
  - destruct s as [| c s]; [constructor |]. simpl in Hlen. simpl.
    destruct (is_linebreak c) eqn:Hbr.
    + constructor; [reflexivity |].
      apply IH. destruct (code c =? 13)%N; [| lia].
      destruct s as [| d s']; [simpl; lia |].
      destruct (code d =? 10)%N; simpl in *; lia.
    + apply cons_first_forall; [now rewrite Hbr | apply IH; lia].
Qed.

Lemma splitlines_forall (s : string) :
  Forall (fun l => string_forall (fun c => negb (is_linebreak c)) l = true)
         (splitlines s).
Proof. now apply (splitlines_forall_fuel (String.length s)). Qed.

Lemma lstrip_forall (P : ascii -> bool) (s : string) :
  string_forall P s = true -> string_forall P (lstrip s) = true.
Proof.
  induction s as [| c s IH]; simpl; [easy |].
  intros HP. destruct (is_space c); [| exact HP].
  apply andb_true_iff in HP as [_ Hs]. now apply IH.
Qed.

Lemma rstrip_forall (P : ascii -> bool) (s : string) :
  string_forall P s = true -> string_forall P (rstrip s) = true.
Proof.
  induction s as [| c s IH]; simpl; [easy |].
  intros HP. apply andb_true_iff in HP as [Hc Hs].
  destruct (is_space c && String.eqb (rstrip s) EmptyString); [reflexivity |].
  simpl. now rewrite Hc, IH.
Qed.

Lemma lstrip_start (s : string) : starts_with_space (lstrip s) = false.
Proof.
  induction s as [| c s IH]; simpl; [reflexivity |].
  destruct (is_space c) eqn:Hc; [exact IH | simpl; exact Hc].
Qed.

Lemma rstrip_end (s : string) : ends_with_space (rstrip s) = false.
Proof.
  induction s as [| c s IH]; simpl; [reflexivity |].
  destruct (is_space c) eqn:Hc; simpl.
  - destruct (String.eqb_spec (rstrip s) EmptyString) as [He | Hne];
      [reflexivity |].
    simpl. destruct (rstrip s); [contradiction | exact IH].
  - destruct (rstrip s) eqn:Hr; [exact Hc | exact IH].
Qed.

Lemma rstrip_start (s : string) :
  starts_with_space s = false -> starts_with_space (rstrip s) = false.
Proof.
  destruct s as [| c s]; simpl; [easy |]. intros Hc. now rewrite Hc.
Qed.

(** What comes out of [strip] has no white space at its ends. *)
Lemma strip_ends (s : string) :
  starts_with_space (strip s) = false /\ ends_with_space (strip s) = false.
Proof.
  unfold strip. split; [apply rstrip_start, lstrip_start | apply rstrip_end].
Qed.

Lemma rstrip_id (s : string) : ends_with_space s = false -> rstrip s = s.
Proof.
  induction s as [| c s IH]; simpl; [reflexivity |].
  destruct s as [| d s'].
  - intros ->. reflexivity.
  - intros He. rewrite (IH He). simpl.
    now rewrite andb_false_r.
Qed.

Lemma lstrip_id (s : string) : starts_with_space s = false -> lstrip s = s.
Proof. destruct s as [| c s]; simpl; [easy |]. now intros ->. Qed.

Lemma strip_id (s : string) :
  starts_with_space s = false -> ends_with_space s = false -> strip s = s.
Proof. intros Hs He. unfold strip. now rewrite (lstrip_id s Hs), rstrip_id. Qed.

Lemma nonempty_spec (s : string) : nonempty s = true <-> s <> EmptyString.
Proof.
  unfold nonempty. rewrite negb_true_iff. apply String.eqb_neq.
Qed.

Lemma string_forall_impl (P Q : ascii -> bool) (s : string) :
  (forall c, P c = true -> Q c = true) ->
  string_forall P s = true -> string_forall Q s = true.
Proof.
  intros HPQ. induction s as [| c s IH]; simpl; [easy |].
  intros HP. apply andb_true_iff in HP as [Hc Hs].
  now rewrite (HPQ c Hc), IH.
Qed.

Lemma parse_tickers_well_formed (txt t : string) :
  t ∈ parse_tickers txt -> well_formed_ticker t.
Proof.
  unfold parse_tickers. intros Hin.
  apply list_elem_of_In, List.filter_In in Hin as [Hin Hne].
  apply list_elem_of_In, list_elem_of_bind in Hin as (line & Ht & Hline).
  apply list_elem_of_fmap in Ht as (piece & -> & Hpiece).
  pose proof (splitlines_forall txt) as Hlines.
  rewrite Forall_forall in Hlines. specialize (Hlines line Hline).
  pose proof (split_comma_forall _ line Hlines) as Hpieces.
  rewrite Forall_forall in Hpieces. specialize (Hpieces piece Hpiece).
  split; [now apply nonempty_spec |].
  split; [| apply strip_ends].
  unfold strip. apply rstrip_forall, lstrip_forall. exact Hpieces.
Qed.

Lemma linebreak_is_space (c : ascii) : is_linebreak c = true -> is_space c = true.
Proof.
  destruct c as [[] [] [] [] [] [] [] []]; vm_compute; congruence.
Qed.

Lemma comma_not_linebreak (c : ascii) : is_comma c = true -> is_linebreak c = false.
Proof.
  unfold is_comma. intros Hc. apply Ascii.eqb_eq in Hc as ->. reflexivity.
Qed.

Lemma split_comma_single (t : string) :
  string_forall (fun c => negb (is_comma c)) t = true -> split_comma t = [t].
Proof.
  induction t as [| c t IH]; simpl; [reflexivity |].
  intros Ht. apply andb_true_iff in Ht as [Hc Ht].
  unfold is_comma in Hc. apply negb_true_iff in Hc. rewrite Hc, (IH Ht).
  reflexivity.
Qed.

Lemma split_comma_cons (t rest : string) :
  string_forall (fun c => negb (is_comma c)) t = true ->
  split_comma (t ++ "," ++ rest) = t :: split_comma rest.
Proof.
  induction t as [| c t IH]; simpl; [reflexivity |].
  intros Ht. apply andb_true_iff in Ht as [Hc Ht].
  unfold is_comma in Hc. apply negb_true_iff in Hc. rewrite Hc.
  simpl in IH. rewrite (IH Ht). reflexivity.
Qed.

Lemma splitlines_single (l : string) :
  string_forall (fun c => negb (is_linebreak c)) l = true ->
  splitlines l = if nonempty l then [l] else [].
Proof.
  induction l as [| c l IH]; simpl; [reflexivity |].
  intros Hl. apply andb_true_iff in Hl as [Hc Hl].
  apply negb_true_iff in Hc. rewrite Hc, (IH Hl).
  now destruct l.
Qed.

Lemma splitlines_cons (l rest : string) :
  string_forall (fun c => negb (is_linebreak c)) l = true ->
  splitlines (l ++ newline ++ rest) = l :: splitlines rest.
Proof.
  induction l as [| c l IH]; simpl; [reflexivity |].
  intros Hl. apply andb_true_iff in Hl as [Hc Hl].
  apply negb_true_iff in Hc. rewrite Hc.
  simpl in IH. rewrite (IH Hl). reflexivity.
Qed.

Lemma plain_symbol_spec (t : string) :
  plain_symbol t = true ->
  nonempty t = true
  /\ string_forall (fun c => negb (is_comma c)) t = true
  /\ string_forall (fun c => negb (is_space c)) t = true.
Proof.
  unfold plain_symbol. intros Hp. apply andb_true_iff in Hp as [Hne Hall].
  split; [exact Hne |]. split.
  - eapply string_forall_impl; [| exact Hall].
    intros c Hc. now apply andb_true_iff in Hc as [? _].
  - eapply string_forall_impl; [| exact Hall].
    intros c Hc. now apply andb_true_iff in Hc as [_ ?].
Qed.

Lemma no_space_ends (t : string) :
  string_forall (fun c => negb (is_space c)) t = true ->
  starts_with_space t = false /\ ends_with_space t = false.
Proof.
  induction t as [| c t IH]; simpl; [easy |].
  intros Ht. apply andb_true_iff in Ht as [Hc Ht].
  apply negb_true_iff in Hc. split; [exact Hc |].
  destruct t; [exact Hc | now apply IH].
Qed.

Lemma strip_plain (t : string) : plain_symbol t = true -> strip t = t.
Proof.
  intros Hp. apply plain_symbol_spec in Hp as (_ & _ & Hsp).
  apply no_space_ends in Hsp as [Hs He]. now apply strip_id.
Qed.

(** One line of symbols reads back as the symbols. *)
Lemma line_round_trip (syms : list string) :
  Forall (fun t => plain_symbol t = true) syms ->
  List.filter nonempty (strip <$> split_comma (String.concat "," syms)) = syms.
Proof.
  induction 1 as [| t syms Ht Hsyms IH]; [reflexivity |].
  pose proof (plain_symbol_spec t Ht) as (Hne & Hcomma & _).
  destruct syms as [| t' syms].
  - simpl. rewrite (split_comma_single t Hcomma). simpl.
    now rewrite (strip_plain t Ht), Hne.
  - change (String.concat "," (t :: t' :: syms))
      with (t ++ "," ++ String.concat "," (t' :: syms)).
    rewrite (split_comma_cons _ _ Hcomma).
    cbn [fmap list_fmap List.filter].
    rewrite (strip_plain t Ht), Hne. f_equal. exact IH.
Qed.

Lemma line_no_linebreak (syms : list string) :
  Forall (fun t => plain_symbol t = true) syms ->
  string_forall (fun c => negb (is_linebreak c)) (String.concat "," syms) = true.
Proof.
  assert (Hsym : forall t, plain_symbol t = true ->
            string_forall (fun c => negb (is_linebreak c)) t = true).
  { intros t Ht. apply plain_symbol_spec in Ht as (_ & _ & Hsp).
    eapply string_forall_impl; [| exact Hsp].
    intros c Hc. apply negb_true_iff in Hc. apply negb_true_iff.
    destruct (is_linebreak c) eqn:Hbr; [| reflexivity].
    apply linebreak_is_space in Hbr. congruence. }
  induction 1 as [| t syms Ht Hsyms IH]; [reflexivity |].
  destruct syms as [| t' syms]; [now apply Hsym |].
  change (String.concat "," (t :: t' :: syms))
    with (t ++ "," ++ String.concat "," (t' :: syms)).
  rewrite !string_forall_app, (Hsym t Ht), IH. reflexivity.
Qed.

Lemma parse_tickers_lines (line : string) (lines : list string) :
  List.filter nonempty ((line :: lines) ≫= fun l => strip <$> split_comma l)
  = (List.filter nonempty (strip <$> split_comma line)
     ++ List.filter nonempty (lines ≫= fun l => strip <$> split_comma l))%list.
Proof. cbn [mbind list_bind]. apply List.filter_app. Qed.

(** A universe file reads back as the symbols that were written, in their
    order and with their repetitions. *)
Lemma universe_round_trip (lines : list (list string)) :
  Forall (Forall (fun t => plain_symbol t = true)) lines ->
  parse_tickers (universe_text lines) = mjoin lines.
Proof.
  unfold parse_tickers, universe_text.
  induction 1 as [| syms lines Hsyms Hlines IH]; [reflexivity |].
  pose proof (line_no_linebreak syms Hsyms) as Hbr.
  destruct lines as [| syms' lines].
  - cbn [fmap list_fmap String.concat mjoin list_join].
    rewrite (splitlines_single _ Hbr), app_nil_r.
    pose proof (line_round_trip syms Hsyms) as Hrt.
    destruct (nonempty (String.concat "," syms)) eqn:Hne.
    + rewrite parse_tickers_lines, Hrt. apply app_nil_r.
    + unfold nonempty in Hne. apply negb_false_iff, String.eqb_eq in Hne.
      rewrite Hne in Hrt. simpl in Hrt. now subst syms.
  - change (String.concat newline (String.concat "," <$> syms :: syms' :: lines))
      with (String.concat "," syms ++ newline
            ++ String.concat newline (String.concat "," <$> syms' :: lines)).
    rewrite (splitlines_cons _ _ Hbr), parse_tickers_lines.
    rewrite (line_round_trip syms Hsyms), IH. reflexivity.
Qed.

(** ** NewsScorer, further *)

Section NewsLoop.
Context {F : Type} `{PyFloat F}.
Variable fromiso : string -> option datetime.
Implicit Types (items : list (NewsItem F)) (n : NewsItem F) (since : datetime).

(** The loop over a list in two parts is the loop over the second part
    started from what the first part gives. *)
Lemma score_items_concat items1 items2 since (acc : F) :
  score_items fromiso (items1 ++ items2) since acc
  = score_items fromiso items1 since acc ≫= score_items fromiso items2 since.
Proof.
  revert acc. induction items1 as [| n items1 IH]; intros acc; simpl.
  - reflexivity.
  - destruct (py_or _ _); try apply IH;
      (destruct (parse_ts fromiso _) as [d |]; [| apply IH];
       destruct (dt_lt d since) as [[] | e]; simpl;
       [apply IH | apply IH | reflexivity]).
Qed.

Lemma score_items_skipped n items since (acc : F) :
  skipped fromiso n since ->
  score_items fromiso (n :: items) since acc = score_items fromiso items since acc.
Proof.
  unfold skipped. simpl.
  destruct (parse_ts fromiso _) as [d |] eqn:Hp.
  - intros ->. simpl. now destruct (py_or _ _).
  - intros _. now destruct (py_or _ _).
Qed.

Lemma get_news_score_skipped n items1 items2 since :
  skipped fromiso n since ->
  get_news_score fromiso (Some (items1 ++ n :: items2)%list) since
  = get_news_score fromiso (Some (items1 ++ items2)%list) since.
Proof.
  intros Hn. unfold get_news_score. cbn [default from_option id].
  rewrite !score_items_concat.
  destruct (score_items fromiso items1 since (flit 0 1)) as [acc | e];
    [| reflexivity].
  unfold mbind, result_bind. now rewrite score_items_skipped.
Qed.
End NewsLoop.

Lemma pymin_Qmin (a b : Q) : (pymin a b == Qmin a b)%Q.
Proof.
  rewrite pymin_Q. destruct (Qltb b a) eqn:Hlt.
  - apply Qltb_lt in Hlt. symmetry. apply Q.min_r. lra.
  - assert (Hle : (a <= b)%Q).
    { apply Qnot_lt_le. intros Hl. apply Qltb_lt in Hl. congruence. }
    symmetry. now apply Q.min_l.
Qed.

(** The score is the sum of the contributions, capped at 10. *)
Lemma get_news_score_sum (fromiso : string -> option datetime)
    (items : list (NewsItem Q)) (since : datetime) :
  Forall (fun n => comparable fromiso n since) items ->
  exists s,
    get_news_score fromiso (Some items) since = Ok s
    /\ (s == Qmin 10 (fold_right Qplus 0
                        ((fun n => contribution fromiso n since) <$> items)))%Q.
Proof.
  intros Hall.
  destruct (score_items_closed fromiso items since (flit 0 1) Hall)
    as (s0 & Hs0 & Hsum).
  exists (pymin s0 (flit 10 1)). split.
  - unfold get_news_score. cbn [default from_option id]. now rewrite Hs0.
  - rewrite pymin_Qmin, Q.min_comm. change (flit 10 1) with 10%Q.
    apply Q.min_compat; [reflexivity |].
    rewrite Hsum. change (flit 0 1) with 0%Q. ring.
Qed.

Lemma Qsum_Permutation (l l' : list Q) :
  l ≡ₚ l' -> (fold_right Qplus 0 l == fold_right Qplus 0 l')%Q.
Proof.
  induction 1 as [| x l l' _ IH | x y l | l l' l'' _ IH1 _ IH2]; simpl.
  - reflexivity.
  - now rewrite IH.
  - ring.
  - now rewrite IH1.
Qed.

(** The order of the items does not matter. *)
Lemma get_news_score_Permutation (fromiso : string -> option datetime)
    (items items' : list (NewsItem Q)) (since : datetime) :
  Forall (fun n => comparable fromiso n since) items ->
  items ≡ₚ items' ->
  exists s s',
    get_news_score fromiso (Some items) since = Ok s
    /\ get_news_score fromiso (Some items') since = Ok s'
    /\ (s == s')%Q.
Proof.
  intros Hall Hperm.
  assert (Hall' : Forall (fun n => comparable fromiso n since) items')
    by now rewrite <- Hperm.
  destruct (get_news_score_sum fromiso items since Hall) as (s & Hs & Hsum).
  destruct (get_news_score_sum fromiso items' since Hall') as (s' & Hs' & Hsum').
  exists s, s'. split; [exact Hs | split; [exact Hs' |]].
  rewrite Hsum, Hsum'. apply Q.min_compat; [reflexivity |].
  apply Qsum_Permutation. now apply fmap_Permutation.
Qed.

(** *** The contribution of a title in binary64 *)

Lemma half_odd_step (j : nat) :
  (j < 18)%nat -> (half_odd j + flit 1 1)%F = half_odd (S j).
Proof.
  intros Hj.
  do 18 (destruct j as [| j]; [vm_compute; reflexivity |]). lia.
Qed.

Lemma keyword_fold_B64 (t : string) (kws : list string) (j : nat) :
  (j + length kws <= 18)%nat ->
  fold_left (fun s kw => if is_substring kw t then (s + flit 1 1)%F else s)
    kws (half_odd j)
  = half_odd (j + length (List.filter (fun kw => is_substring kw t) kws)).
Proof.
  revert j. induction kws as [| kw kws IH]; intros j Hj.
  - simpl. now rewrite Nat.add_0_r.
  - cbn [fold_left List.filter]. cbn [length] in Hj.
    destruct (is_substring kw t).
    + rewrite half_odd_step by lia. rewrite IH by lia.
      cbn [length]. f_equal. lia.
    + apply IH. lia.
Qed.

Lemma keyword_count_le (t : string) : (keyword_count t <= 18)%nat.
Proof.
  unfold keyword_count.
  etransitivity; [apply List.filter_length_le | reflexivity].
Qed.

(** In binary64 no step of the contribution rounds: the float that comes
    out stands for min(3, 0.5 + the number of keywords). *)
Lemma keyword_score_B64 (t : string) :
  exists q, B64.to_Q (keyword_score (F:=B64.t) t) = Some q
            /\ (q == Qmin 3 ((1 # 2) + inject_Z (Z.of_nat (keyword_count t))))%Q.
Proof.
  unfold keyword_score.
  change (flit 5 10 : B64.t) with (half_odd 0).
  rewrite (keyword_fold_B64 t NEWS_KEYWORDS 0) by (simpl; lia).
  fold (keyword_count t). pose proof (keyword_count_le t) as Hk.
  simpl Nat.add.
  destruct (keyword_count t) as [| k]; [eexists; split; [vm_compute; reflexivity | reflexivity] |].
  do 18 (destruct k as [| k];
         [eexists; split; [vm_compute; reflexivity | vm_compute; reflexivity] |]).
  lia.
Qed.

(** ** MetricsEngine, further *)

(** The gap, the close and the date are those of the last two sessions:
    older bars in front of a history that is long enough do not change
    them.  (The volume ratio is not in the list: in binary64 the running sum
    of the rolling mean can carry a rounding of an older bar into the last
    window.) *)
Lemma metrics_older_bars {F : Type} `{PyFloat F} (old hist : list (PriceBar F)) :
  (VOL_SMA_WINDOW + 2 <= length hist)%nat ->
  exists m m',
    metrics_of_history hist = Ok (Some m)
    /\ metrics_of_history (old ++ hist) = Ok (Some m')
    /\ gap_pct m' = gap_pct m
    /\ close m' = close m
    /\ date m' = date m.
Proof.
  intros Hlen.
  destruct (metrics_long hist Hlen) as (latest & prev & adv & Hl & Hp & _ & ->).
  destruct (metrics_long (old ++ hist))
    as (latest' & prev' & adv' & Hl' & Hp' & _ & ->).
  { rewrite length_app. etransitivity; [exact Hlen | apply Nat.le_add_l]. }
  unfold VOL_SMA_WINDOW in *. rewrite length_app in Hl', Hp'.
  rewrite lookup_app_r in Hl' by lia. rewrite lookup_app_r in Hp' by lia.
  replace (length old + length hist - 1 - length old)%nat
    with (length hist - 1)%nat in Hl' by lia.
  replace (length old + length hist - 2 - length old)%nat
    with (length hist - 2)%nat in Hp' by lia.
  assert (latest' = latest) as -> by congruence.
  assert (prev' = prev) as -> by congruence.
  eexists _, _. repeat split.
Qed.

Lemma pymax_Q (a b : Q) : pymax a b = if Qltb a b then b else a.
Proof. reflexivity. Qed.

Lemma pymax_Q_ge (a b : Q) : (a <= pymax a b)%Q.
Proof.
  rewrite pymax_Q. destruct (Qltb a b) eqn:Hlt; [| apply Qle_refl].
  apply Qltb_lt in Hlt. lra.
Qed.

Lemma pymax_Q_floor (a b : Q) : (b <= a)%Q -> pymax a b = a.
Proof.
  intros Hba. rewrite pymax_Q. destruct (Qltb a b) eqn:Hlt; [| reflexivity].
  apply Qltb_lt in Hlt. lra.
Qed.

Lemma Qdiv_bounds (v d : Q) :
  (0 <= v)%Q -> (1 <= d)%Q -> (0 <= v / d <= v)%Q.
Proof.
  intros Hv Hd. split.
  - apply Qle_shift_div_l; lra.
  - apply Qle_shift_div_r; [lra |]. nra.
Qed.

(** The floor of the denominator at 1.0. *)
Lemma vol_ratio_floor (hist : list (PriceBar Q)) (m : MetricResult Q) :
  metrics_of_history hist = Ok (Some m) ->
  exists latest,
    hist !! (length hist - 1)%nat = Some latest
    /\ ((0 <= Volume latest)%Q -> (0 <= vol_ratio m <= Volume latest)%Q)
    /\ ((trailing_average VOL_SMA_WINDOW (Volume <$> hist) <= 1)%Q ->
        (vol_ratio m == Volume latest)%Q).
Proof.
  intros Hm.
  destruct (decide (length hist < VOL_SMA_WINDOW + 2)%nat) as [Hshort | Hlong].
  { rewrite (metrics_short hist Hshort) in Hm. discriminate. }
  destruct (metrics_long_Q hist) as (latest & prev & a & Hl & _ & _ & Ha & Heq);
    [lia |].
  assert (Hv : vol_ratio m = (Volume latest / pymax (flit 1 1) a)%F).
  { rewrite Heq in Hm. now injection Hm as <-. }
  exists latest. split; [exact Hl |]. rewrite Hv. split.
  - intros Hvol. apply Qdiv_bounds; [exact Hvol |].
    change 1%Q with (flit 1 1 : Q). apply pymax_Q_ge.
  - intros Hadv. rewrite <- Ha in Hadv.
    assert (Hfloor : pymax (flit 1 1) a = 1%Q)
      by (apply pymax_Q_floor; exact Hadv).
    rewrite Hfloor. change fdiv with Qdiv. field.
Qed.

(** The sign of the gap. *)
Lemma gap_sign (hist : list (PriceBar Q)) (m : MetricResult Q) :
  metrics_of_history hist = Ok (Some m) ->
  exists latest prev,
    hist !! (length hist - 1)%nat = Some latest
    /\ hist !! (length hist - 2)%nat = Some prev
    /\ ((0 < Close prev)%Q ->
        ((0 < gap_pct m)%Q <-> (Close prev < Open latest)%Q)
        /\ ((gap_pct m < 0)%Q <-> (Open latest < Close prev)%Q)
        /\ ((gap_pct m == 0)%Q <-> (Open latest == Close prev)%Q)).
Proof.
  intros Hm.
  destruct (decide (length hist < VOL_SMA_WINDOW + 2)%nat) as [Hshort | Hlong].
  { rewrite (metrics_short hist Hshort) in Hm. discriminate. }
  destruct (metrics_long hist) as (latest & prev & adv & Hl & Hp & _ & Heq); [lia |].
  assert (Hg : gap_pct m = ((Open latest - Close prev) / Close prev)%F).
  { rewrite Heq in Hm. now injection Hm as <-. }
  exists latest, prev.
  split; [exact Hl | split; [exact Hp |]]. rewrite Hg.
  change fdiv with Qdiv. change fsub with Qminus.
  set (o := Open latest). set (c := Close prev). intros Hc.
  assert (Hmul : ((o - c) / c * c == o - c)%Q) by (field; lra).
  assert (Hinv : (0 < / c)%Q) by now apply Qinv_lt_0_compat.
  unfold Qdiv in *.
  split; [| split]; split; intros Hx; nra.
Qed.

(** ** CompositeScorer, further *)

Ltac q_bools :=
  repeat match goal with
    | H : Qle_bool _ _ = true |- _ => apply Qle_bool_iff in H
    | H : Qle_bool _ _ = false |- _ => apply Qle_bool_false in H
    | H : Qltb _ _ = true |- _ => apply Qltb_lt in H
    | H : Qltb _ _ = false |- _ => apply Qltb_false in H
    end.

(** Rounding to the nearest integer stays next to the floor and keeps the
    order. *)
Lemma Qround_half_even_range (q : Q) :
  Qfloor q <= Qround_half_even q <= Qfloor q + 1.
Proof.
  unfold Qround_half_even.
  destruct (Qcompare _ _); [destruct (Z.even _) | |]; lia.
Qed.

Lemma Qround_half_even_mono (x y : Q) :
  (x <= y)%Q -> Qround_half_even x <= Qround_half_even y.
Proof.
  intros Hxy. pose proof (Qfloor_resp_le x y Hxy) as Hfl.
  destruct (Z.eq_dec (Qfloor x) (Qfloor y)) as [Heq | Hne].
  - unfold Qround_half_even. rewrite <- Heq.
    destruct (Qcompare_spec (x - inject_Z (Qfloor x)) (1 # 2)) as [Hx | Hx | Hx],
             (Qcompare_spec (y - inject_Z (Qfloor x)) (1 # 2)) as [Hy | Hy | Hy];
      try (destruct (Z.even (Qfloor x))); try lia; exfalso; lra.
  - pose proof (Qround_half_even_range x). pose proof (Qround_half_even_range y).
    lia.
Qed.

Lemma Qround2_mono (x y : Q) : (x <= y)%Q -> (Qround2 x <= Qround2 y)%Q.
Proof.
  intros Hxy. unfold Qround2, Qle. simpl.
  apply Z.mul_le_mono_nonneg_r; [lia |].
  apply Qround_half_even_mono. lra.
Qed.

Lemma pymin_Q_le_l (a b : Q) : (pymin a b <= a)%Q.
Proof.
  rewrite pymin_Q. destruct (Qltb b a) eqn:Hlt; q_bools; lra.
Qed.

Lemma pymin_Q_mono_r (a b b' : Q) : (b <= b')%Q -> (pymin a b <= pymin a b')%Q.
Proof.
  intros Hbb. rewrite !pymin_Q.
  destruct (Qltb b a) eqn:H1, (Qltb b' a) eqn:H2; q_bools; lra.
Qed.

Lemma fresh_bounds (ns : Q) : (0 <= ns)%Q -> (0 <= fresh_of ns <= 5)%Q.
Proof.
  intros Hns. unfold fresh_of. split.
  - apply pymin_Q_le; [change (flit 5 1) with 5%Q; lra | exact Hns].
  - apply pymin_Q_le_l.
Qed.

Lemma inst_values (gap vol : Q) :
  inst_of gap vol = 5%Q \/ inst_of gap vol = 3%Q
  \/ inst_of gap vol = (15 # 10)%Q \/ inst_of gap vol = 0%Q.
Proof. exact (proj1 (tiers_of_distinct distinct_Q gap vol)). Qed.

(** The justified-story score is 4.0, 2.0 or 0.5, never 0. *)
Lemma justified_values (fresh inst : Q) :
  justified_of fresh inst = 4%Q \/ justified_of fresh inst = 2%Q
  \/ justified_of fresh inst = (5 # 10)%Q.
Proof.
  unfold justified_of.
  destruct (_ && _); [now left |].
  destruct (_ >? _)%F; [right; now left | right; now right].
Qed.

Lemma justified_mono (fresh fresh' inst : Q) :
  (fresh <= fresh')%Q -> (justified_of fresh inst <= justified_of fresh' inst)%Q.
Proof.
  intros Hff. unfold justified_of.
  change (@fleb Q QFloat) with Qle_bool. change (@fltb Q QFloat) with Qltb.
  change (flit 2 1) with 2%Q. change (flit 3 1) with 3%Q.
  change (flit 0 1) with 0%Q. change (flit 4 1) with 4%Q.
  change (flit 5 10) with (5 # 10)%Q.
  destruct (Qle_bool 2 fresh) eqn:H1, (Qle_bool 2 fresh') eqn:H1',
           (Qle_bool 3 inst) eqn:H2, (Qltb 0 fresh) eqn:H3,
           (Qltb 0 fresh') eqn:H3'; simpl; q_bools; lra.
Qed.

Lemma rerate_bounds (fresh inst : Q) :
  (0 <= fresh)%Q -> (0 <= inst)%Q -> (0 <= rerate_of fresh inst <= 5)%Q.
Proof.
  intros Hf Hi. unfold rerate_of. split; [| apply pymin_Q_le_l].
  apply pymin_Q_le; [change (flit 5 1) with 5%Q; lra |].
  change (0 <= fresh + inst * (1 # 2))%Q. lra.
Qed.

Lemma rerate_mono (fresh fresh' inst : Q) :
  (fresh <= fresh')%Q -> (rerate_of fresh inst <= rerate_of fresh' inst)%Q.
Proof.
  intros Hff. unfold rerate_of. apply pymin_Q_mono_r.
  change (fresh + inst * (1 # 2) <= fresh' + inst * (1 # 2))%Q. lra.
Qed.

(** The overall score of a scored ticker lies between 0.08 and 4.85. *)
Lemma composite_overall_bounds (gap vol ns : Q) :
  (0 <= ns)%Q -> ((8 # 100) <= composite_overall gap vol ns <= (485 # 100))%Q.
Proof.
  intros Hns. unfold composite_overall, overall_of.
  pose proof (fresh_bounds ns Hns) as Hf.
  set (fresh := fresh_of ns) in *.
  assert (Hi : (0 <= inst_of gap vol <= 5)%Q).
  { destruct (inst_values gap vol) as [-> | [-> | [-> | ->]]]; lra. }
  set (inst := inst_of gap vol) in *.
  assert (Hj : ((5 # 10) <= justified_of fresh inst <= 4)%Q).
  { destruct (justified_values fresh inst) as [-> | [-> | ->]]; lra. }
  pose proof (rerate_bounds fresh inst (proj1 Hf) (proj1 Hi)) as Hr.
  set (justified := justified_of fresh inst) in *.
  set (rerate := rerate_of fresh inst) in *.
  change (Qround2 (75 # 1000) <=
          Qround2 (fresh * (4 # 10) + inst * (35 # 100)
                   + justified * (15 # 100) + rerate * (10 # 100))
          <= Qround2 (485 # 100))%Q.
  split; apply Qround2_mono; lra.
Qed.

(** More news never lowers the overall score. *)
Lemma composite_overall_mono (gap vol ns ns' : Q) :
  (ns <= ns')%Q ->
  (composite_overall gap vol ns <= composite_overall gap vol ns')%Q.
Proof.
  intros Hnn. unfold composite_overall, overall_of.
  assert (Hf : (fresh_of ns <= fresh_of ns')%Q)
    by now apply pymin_Q_mono_r.
  set (fresh := fresh_of ns) in *. set (fresh' := fresh_of ns') in *.
  set (inst := inst_of gap vol).
  pose proof (justified_mono fresh fresh' inst Hf) as Hj.
  pose proof (rerate_mono fresh fresh' inst Hf) as Hr.
  set (j := justified_of fresh inst) in *. set (j' := justified_of fresh' inst) in *.
  set (r := rerate_of fresh inst) in *. set (r' := rerate_of fresh' inst) in *.
  change (Qround2 (fresh * (4 # 10) + inst * (35 # 100)
                   + j * (15 # 100) + r * (10 # 100))
          <= Qround2 (fresh' * (4 # 10) + inst * (35 # 100)
                      + j' * (15 # 100) + r' * (10 # 100)))%Q.
  apply Qround2_mono. lra.
Qed.

Lemma scored_overall_field (t : string) (m : MetricResult Q) (ns : Q) :
  scored_row t m ns !! "overall"
  = Some (VFloat (composite_overall (gap_pct m) (vol_ratio m) ns)).
Proof. reflexivity. Qed.

Lemma get_news_score_nonneg (fromiso : string -> option datetime)
    (items : option (list (NewsItem Q))) (since : datetime) (ns : Q) :
  get_news_score fromiso items since = Ok ns -> (0 <= ns <= 10)%Q.
Proof.
  unfold get_news_score. intros Hs.
  destruct (score_items fromiso _ since (flit 0 1)) as [sc | e] eqn:Hsc.
  2:{ simpl in Hs. discriminate Hs. }
  simpl in Hs. injection Hs as <-.
  pose proof (score_items_ge fromiso _ since _ _ Hsc) as Hge.
  change (flit 0 1) with 0%Q in Hge. change (flit 10 1) with 10%Q.
  split; [apply pymin_Q_le; lra | apply pymin_Q_le_r].
Qed.

(** ** Ranking and [build], further *)

Lemma cell_float (r : gmap string (value Q)) (k : string) (x : Q) :
  r !! k = Some (VFloat x) -> cell r k = Some x.
Proof.
  intros Hr. unfold cell. rewrite Hr.
  change (@fleb Q QFloat x x) with (Qle_bool x x).
  assert (Hxx : Qle_bool x x = true) by (apply Qle_bool_iff; lra).
  now rewrite Hxx.
Qed.

Lemma desc_cmp_above (x y : Q) : (y < x)%Q -> desc_cmp (Some x) (Some y) = Lt.
Proof.
  intros Hxy. destruct (desc_cmp_Some x y) as [[_ ->] | [[? _] | [? _]]];
    [reflexivity | lra | lra].
Qed.

Lemma insufficient_overall (t : string) :
  insufficient_row (F:=Q) t !! "overall" = Some (VFloat 0%Q).
Proof. reflexivity. Qed.

Lemma error_overall (t e : string) :
  error_row (F:=Q) t e !! "overall" = Some (VFloat 0%Q).
Proof. reflexivity. Qed.

(** A row of a lower band goes strictly before a row of a higher band. *)
Lemma band_cmp (r r' : gmap string (value Q)) (b b' : nat) :
  row_band r b -> row_band r' b' -> (b < b')%nat ->
  lex_cmp SORT_KEYS r r' = Lt.
Proof.
  intros Hr Hr' Hbb.
  destruct Hr as [t m ns Hns | t | t e], Hr' as [t' m' ns' Hns' | t' | t' e'];
    try lia.
  - unfold SORT_KEYS. cbn [lex_cmp].
    rewrite (cell_float _ _ _ (scored_overall_field t m ns)).
    rewrite (cell_float _ _ _ (insufficient_overall t')).
    rewrite desc_cmp_above; [reflexivity |].
    pose proof (composite_overall_bounds (gap_pct m) (vol_ratio m) ns Hns). lra.
  - unfold SORT_KEYS. cbn [lex_cmp].
    rewrite (cell_float _ _ _ (scored_overall_field t m ns)).
    rewrite (cell_float _ _ _ (error_overall t' e')).
    rewrite desc_cmp_above; [reflexivity |].
    pose proof (composite_overall_bounds (gap_pct m) (vol_ratio m) ns Hns). lra.
  - reflexivity.
Qed.

Lemma StronglySorted_lookup {A} (R : A -> A -> Prop) (l : list A)
    (i j : nat) (a b : A) :
  StronglySorted R l -> (i < j)%nat ->
  l !! i = Some a -> l !! j = Some b -> R a b.
Proof.
  intros Hl. revert i j. induction Hl as [| x l Hl IH Hall]; intros i j Hij Hi Hj.
  - discriminate.
  - destruct j as [| j]; [lia |]. simpl in Hj. destruct i as [| i].
    + simpl in Hi. injection Hi as ->.
      rewrite Forall_forall in Hall. apply Hall.
      eapply list_elem_of_lookup_2. exact Hj.
    + simpl in Hi. apply (IH i j); [lia | assumption ..].
Qed.

(** In a sorted list of rows the bands come in order. *)
Lemma sorted_bands (rows : list (gmap string (value Q))) (i j : nat)
    (ri rj : gmap string (value Q)) (bi bj : nat) :
  (i < j)%nat ->
  stable_sort SORT_KEYS rows !! i = Some ri ->
  stable_sort SORT_KEYS rows !! j = Some rj ->
  row_band ri bi -> row_band rj bj -> (bi <= bj)%nat.
Proof.
  intros Hij Hi Hj Hbi Hbj.
  pose proof (StronglySorted_lookup _ _ i j ri rj
                (stable_sort_sorted SORT_KEYS rows) Hij Hi Hj) as Hbefore.
  destruct (le_lt_dec bi bj) as [Hle | Hlt]; [exact Hle | exfalso].
  pose proof (band_cmp rj ri bj bi Hbj Hbi Hlt) as Hcmp.
  unfold before, goes_before in Hbefore.
  rewrite (cmp_opp _ (lex_cmp_laws SORT_KEYS) rj ri), Hcmp in Hbefore.
  discriminate.
Qed.

(** *** The sort is stable *)

Section Stable.
Variable by_ : list string.
Implicit Types (r x y : gmap string (value Q)) (l : list (gmap string (value Q))).

Lemma same_rank_skip r x y :
  same_rank by_ r x = true -> goes_before by_ x y = false ->
  same_rank by_ r y = false.
Proof.
  unfold same_rank, goes_before. intros Hx Hxy.
  destruct (lex_cmp by_ x r) eqn:Exr; try discriminate.
  destruct (lex_cmp by_ x y) eqn:Exy; try discriminate.
  pose proof (lex_cmp_laws by_) as L.
  rewrite <- (cmp_eq_r _ L x r y Exr).
  now rewrite (cmp_opp _ L x y), Exy.
Qed.

Lemma insert_row_same_rank r x l :
  List.filter (same_rank by_ r) (insert_row by_ x l)
  = if same_rank by_ r x then x :: List.filter (same_rank by_ r) l
    else List.filter (same_rank by_ r) l.
Proof.
  induction l as [| y l IH]; simpl.
  - now destruct (same_rank by_ r x).
  - destruct (goes_before by_ x y) eqn:Hxy.
    + simpl. now destruct (same_rank by_ r x).
    + simpl. rewrite IH. destruct (same_rank by_ r x) eqn:Hx.
      * now rewrite (same_rank_skip r x y Hx Hxy).
      * reflexivity.
Qed.

(** Rows that tie on every key keep the order they came in. *)
Lemma stable_sort_stable r l :
  List.filter (same_rank by_ r) (stable_sort by_ l)
  = List.filter (same_rank by_ r) l.
Proof.
  induction l as [| x l IH]; [reflexivity |].
  change (stable_sort by_ (x :: l)) with (insert_row by_ x (stable_sort by_ l)).
  rewrite insert_row_same_rank, IH. reflexivity.
Qed.
End Stable.

(** *** [build] from end to end *)

Section BuildRun.
Variable W : world Q.

(** What a run that returns went through. *)
Lemma build_Ok (df : DataFrame Q) (diff : list string * list string) :
  build W = Ok (df, diff) ->
  exists txt,
    read_file W UNIVERSE_FILE = Ok txt
    /\ records df
       = stable_sort SORT_KEYS (row_of_ticker W <$> parse_tickers txt)
    /\ compute_diff W = Ok diff.
Proof.
  unfold build, load_tickers. intros Hb.
  destruct (read_file W UNIVERSE_FILE) as [txt | e] eqn:Hread;
    cbn [mbind result_bind] in Hb; [| discriminate Hb].
  exists txt. split; [reflexivity |].
  rewrite build_rows_map in Hb.
  destruct (sort_values _ SORT_KEYS) as [df' | e] eqn:Hsort;
    cbn [mbind result_bind] in Hb; [| discriminate Hb].
  destruct (compute_diff W) as [d | e];
    cbn [mbind result_bind] in Hb; [| discriminate Hb].
  injection Hb as <- <-. split; [| reflexivity].
  unfold sort_values in Hsort.
  destruct (List.find _ SORT_KEYS); [discriminate Hsort |].
  now injection Hsort as <-.
Qed.

Lemma row_of_ticker_band (t : string) : exists b, row_band (row_of_ticker W t) b.
Proof.
  unfold row_of_ticker. destruct (try_ticker W t) as [r | e] eqn:Ht.
  - destruct (try_ticker_Ok W t r Ht) as (hist & mo & nopt & ns & _ & _ & _ & Hns & ->).
    destruct mo as [m |].
    + exists 0%nat. apply band_scored.
      exact (proj1 (get_news_score_nonneg _ _ _ _ Hns)).
    + exists 1%nat. apply band_insufficient.
  - exists 2%nat. apply band_failure.
Qed.

Lemma row_of_ticker_ticker (t : string) :
  row_of_ticker W t !! "ticker" = Some (VStr t).
Proof.
  unfold row_of_ticker. destruct (try_ticker W t) as [r | e] eqn:Ht;
    [| reflexivity].
  destruct (try_ticker_Ok W t r Ht) as (_ & mo & _ & ns & _ & _ & _ & _ & ->).
  now destruct mo.
Qed.

Lemma ticker_column_rows (tickers : list string) :
  ticker_column (row_of_ticker W <$> tickers) = (fun t => Some (VStr t)) <$> tickers.
Proof.
  unfold ticker_column. rewrite <- list_fmap_compose.
  apply list_fmap_ext. intros _ t _. apply row_of_ticker_ticker.
Qed.
End BuildRun.

Section BuildOutcome.
Variable W : world Q.

Lemma columns_spec (rows : list (gmap string (value Q))) (k : string) :
  k ∈ columns (DataFrame_of rows) <-> exists r, r ∈ rows /\ is_Some (r !! k).
Proof.
  unfold DataFrame_of. cbn [columns]. rewrite elem_of_union_list. split.
  - intros (X & HX & Hk). apply list_elem_of_fmap in HX as (r & -> & Hr).
    exists r. split; [exact Hr | now apply elem_of_dom].
  - intros (r & Hr & Hk). exists (dom r).
    split; [now apply list_elem_of_fmap_2 | now apply elem_of_dom].
Qed.

Lemma row_has_overall (t : string) : is_Some (row_of_ticker W t !! "overall").
Proof.
  unfold row_of_ticker. destruct (try_ticker W t) as [r | e] eqn:Ht;
    [| now eexists].
  destruct (try_ticker_Ok W t r Ht) as (_ & mo & _ & ns & _ & _ & _ & _ & ->).
  destruct mo; now eexists.
Qed.

Lemma processed_row_keys (t : string) (r : gmap string (value Q)) (k : string) :
  try_ticker W t = Ok r -> k ∈ SORT_KEYS -> is_Some (row_of_ticker W t !! k).
Proof.
  intros Ht Hk. unfold row_of_ticker. rewrite Ht.
  destruct (try_ticker_Ok W t r Ht) as (_ & mo & _ & ns & _ & _ & _ & _ & ->).
  unfold SORT_KEYS in Hk.
  apply elem_of_cons in Hk as [-> | Hk]; [destruct mo; now eexists |].
  apply elem_of_cons in Hk as [-> | Hk]; [destruct mo; now eexists |].
  apply elem_of_cons in Hk as [-> | Hk]; [destruct mo; now eexists |].
  now apply elem_of_nil in Hk.
Qed.

Lemma failed_row_no_fresh (t e : string) :
  try_ticker W t = Raise e -> row_of_ticker W t !! "fresh_catalyst_score" = None.
Proof. intros Ht. unfold row_of_ticker. now rewrite Ht. Qed.

(** The frame of the rows of a universe in which some ticker was processed
    without an exception sorts. *)
Lemma sort_rows_Ok (tickers : list string) (t : string) (r : gmap string (value Q)) :
  t ∈ tickers -> try_ticker W t = Ok r ->
  sort_values (DataFrame_of (row_of_ticker W <$> tickers)) SORT_KEYS
  = Ok {| columns := columns (DataFrame_of (row_of_ticker W <$> tickers));
          records := stable_sort SORT_KEYS (row_of_ticker W <$> tickers) |}.
Proof.
  intros Hin Ht. apply sort_values_Ok. intros k Hk.
  apply columns_spec. exists (row_of_ticker W t).
  split; [now apply list_elem_of_fmap_2 | eapply processed_row_keys; eassumption].
Qed.

Lemma sort_rows_empty :
  sort_values (DataFrame_of (row_of_ticker W <$> [])) SORT_KEYS = Raise "'overall'".
Proof. reflexivity. Qed.

Lemma sort_rows_all_failed (tickers : list string) :
  tickers <> [] ->
  (forall t, t ∈ tickers -> exists e, try_ticker W t = Raise e) ->
  sort_values (DataFrame_of (row_of_ticker W <$> tickers)) SORT_KEYS
  = Raise "'fresh_catalyst_score'".
Proof.
  intros Hne Hall. unfold sort_values, SORT_KEYS. cbn [List.find].
  assert (Hov : "overall" ∈ columns (DataFrame_of (row_of_ticker W <$> tickers))).
  { destruct tickers as [| t tickers]; [contradiction |].
    apply columns_spec. exists (row_of_ticker W t).
    split; [apply list_elem_of_fmap_2; now left | apply row_has_overall]. }
  assert (Hfr : "fresh_catalyst_score"
                ∉ columns (DataFrame_of (row_of_ticker W <$> tickers))).
  { intros Hin. apply columns_spec in Hin as (r & Hr & Hk).
    apply list_elem_of_fmap in Hr as (t & -> & Ht).
    destruct (Hall t Ht) as [e He].
    rewrite (failed_row_no_fresh t e He) in Hk. now destruct Hk. }
  rewrite (bool_decide_eq_false_2 _ (fun Hn => Hn Hov)).
  now rewrite (bool_decide_eq_true_2 _ Hfr).
Qed.

Lemma compute_diff_Ok (txt : string) :
  read_file W UNIVERSE_FILE = Ok txt ->
  compute_diff W
  = Ok (sorted (list_to_set (parse_tickers txt)
                ∖ list_to_set (parse_tickers (popen_read W GIT_SHOW))),
        sorted (list_to_set (parse_tickers (popen_read W GIT_SHOW))
                ∖ list_to_set (parse_tickers txt))).
Proof.
  intros Hread. unfold compute_diff, load_tickers.
  now rewrite Hread, previous_tokens.
Qed.
End BuildOutcome.

(** ** Further properties of the code *)

(** X1. Every ticker [load_tickers] returns is not empty, holds no comma and
    no line break, and has no white space at either end. *)
Theorem X1_tickers_well_formed {F : Type} `{PyFloat F} (W : world F)
    (path : string) (tickers : list string) :
  load_tickers W path = Ok tickers -> Forall well_formed_ticker tickers.
Proof.
  unfold load_tickers. intros Hl.
  destruct (read_file W path) as [txt | e]; [| discriminate Hl].
  injection Hl as <-. apply Forall_forall. intros t Ht.
  now apply (parse_tickers_well_formed txt).
Qed.

Lemma X1_tickers_well_formed_witness :
  Forall well_formed_ticker [ "GAP"; "THIN"; "DOWN" ].
Proof.
  apply (X1_tickers_well_formed Example.market UNIVERSE_FILE). reflexivity.
Defined.

(** X2. A universe file written as lines of comma-separated symbols (each
    symbol not empty, free of commas and white space) loads as exactly those
    symbols, in their order and with their repetitions. *)
Theorem X2_universe_round_trip {F : Type} `{PyFloat F} (W : world F)
    (path : string) (lines : list (list string)) :
  Forall (Forall (fun t => plain_symbol t = true)) lines ->
  read_file W path = Ok (universe_text lines) ->
  load_tickers W path = Ok (mjoin lines).
Proof.
  intros Hplain Hread. unfold load_tickers. rewrite Hread.
  cbn [mbind result_bind]. f_equal. now apply universe_round_trip.
Qed.

Lemma X2_universe_round_trip_witness :
  load_tickers Example2.listed UNIVERSE_FILE = Ok [ "AAPL"; "MSFT"; "GOOG" ].
Proof.
  apply (X2_universe_round_trip Example2.listed UNIVERSE_FILE Example2.two_lines).
  - repeat constructor.
  - reflexivity.
Defined.

(** X3. Where every timestamp can be placed against the cutoff, the news
    score is the sum over the items of their contributions, capped at 10: an
    item without a readable timestamp or from before the cutoff contributes
    nothing, any other item min(3, 0.5 + the number of keywords in its
    lowercased title). *)
Theorem X3_news_score_is_capped_sum (fromiso : string -> option datetime)
    (items : list (NewsItem Q)) (since : datetime) :
  Forall (fun n => comparable fromiso n since) items ->
  exists s,
    get_news_score fromiso (Some items) since = Ok s
    /\ (s == Qmin 10 (fold_right Qplus 0
                        ((fun n => contribution fromiso n since) <$> items)))%Q.
Proof. apply get_news_score_sum. Qed.

Lemma gap_news_comparable :
  Forall (fun n => comparable Iso.parse n (since_ts Example.market))
         Example.gap_news.
Proof.
  repeat constructor; intros d Hd; vm_compute in Hd;
    try discriminate; injection Hd as <-; reflexivity.
Qed.

Lemma X3_news_score_is_capped_sum_witness :
  exists s,
    get_news_score Iso.parse (Some Example.gap_news) (since_ts Example.market)
    = Ok s
    /\ (s == Qmin 10 (fold_right Qplus 0
                        ((fun n => contribution Iso.parse n
                                     (since_ts Example.market))
                           <$> Example.gap_news)))%Q.
Proof.
  apply (X3_news_score_is_capped_sum Iso.parse Example.gap_news
           (since_ts Example.market)).
  exact gap_news_comparable.
Defined.

(** X4. An item the loop passes over (no readable timestamp, or older than
    the cutoff) can be taken out of the list, wherever it stands, without
    changing what the scorer returns or raises. *)
Theorem X4_skipped_items_do_not_count {F : Type} `{PyFloat F}
    (fromiso : string -> option datetime) (n : NewsItem F)
    (items1 items2 : list (NewsItem F)) (since : datetime) :
  skipped fromiso n since ->
  get_news_score fromiso (Some (items1 ++ n :: items2)%list) since
  = get_news_score fromiso (Some (items1 ++ items2)%list) since.
Proof. apply get_news_score_skipped. Qed.

Lemma X4_skipped_items_do_not_count_witness :
  get_news_score Iso.parse
    (Some (Example.offset_news
           ++ Example.item (PInt 1500000000) "Acme upgrade" :: Example.gap_news)%list)
    (since_ts Example.market)
  = get_news_score Iso.parse (Some (Example.offset_news ++ Example.gap_news)%list)
      (since_ts Example.market).
Proof.
  apply (X4_skipped_items_do_not_count Iso.parse
           (Example.item (PInt 1500000000) "Acme upgrade")).
  vm_compute. reflexivity.
Defined.

(** X5. Where every timestamp can be placed against the cutoff, the news
    score does not depend on the order of the items. *)
Theorem X5_news_order_irrelevant (fromiso : string -> option datetime)
    (items items' : list (NewsItem Q)) (since : datetime) :
  Forall (fun n => comparable fromiso n since) items ->
  items ≡ₚ items' ->
  exists s s',
    get_news_score fromiso (Some items) since = Ok s
    /\ get_news_score fromiso (Some items') since = Ok s'
    /\ (s == s')%Q.
Proof. apply get_news_score_Permutation. Qed.

Lemma X5_news_order_irrelevant_witness :
  exists s s',
    get_news_score Iso.parse (Some Example.gap_news) (since_ts Example.market)
    = Ok s
    /\ get_news_score Iso.parse (Some (rev Example.gap_news))
         (since_ts Example.market) = Ok s'
    /\ (s == s')%Q.
Proof.
  apply (X5_news_order_irrelevant Iso.parse Example.gap_news
           (rev Example.gap_news) (since_ts Example.market)).
  - exact gap_news_comparable.
  - apply Permutation_rev.
Defined.

(** X6. In binary64 the contribution of a title is computed without any
    rounding: the float is exactly min(3, 0.5 + the number of keywords in
    the title). *)
Theorem X6_keyword_score_exact_in_binary64 (t : string) :
  exists q, B64.to_Q (keyword_score (F:=B64.t) t) = Some q
            /\ (q == Qmin 3 ((1 # 2) + inject_Z (Z.of_nat (keyword_count t))))%Q.
Proof. apply keyword_score_B64. Qed.

(** X7. The gap, the close and the date are those of the last two sessions:
    bars put in front of a history of at least [VOL_SMA_WINDOW + 2] bars
    leave all three as they were, for every float instance. *)
Theorem X7_older_bars_irrelevant {F : Type} `{PyFloat F}
    (old hist : list (PriceBar F)) :
  (VOL_SMA_WINDOW + 2 <= length hist)%nat ->
  exists m m',
    metrics_of_history hist = Ok (Some m)
    /\ metrics_of_history (old ++ hist) = Ok (Some m')
    /\ gap_pct m' = gap_pct m
    /\ close m' = close m
    /\ date m' = date m.
Proof. apply metrics_older_bars. Qed.

Lemma X7_older_bars_irrelevant_witness :
  exists m m',
    metrics_of_history Example.gap_history = Ok (Some m)
    /\ metrics_of_history
         ([ Example.bar "2024-01-02" 7 9 123456 ] ++ Example.gap_history)
       = Ok (Some m')
    /\ gap_pct m' = gap_pct m
    /\ close m' = close m
    /\ date m' = date m.
Proof.
  apply (X7_older_bars_irrelevant [ Example.bar "2024-01-02" 7 9 123456 ]
           Example.gap_history).
  unfold VOL_SMA_WINDOW. simpl. lia.
Defined.

(** X8. The denominator of the volume ratio is floored at 1.0: with a
    non-negative latest volume the ratio lies between 0 and that volume, and
    when the average volume is at most 1 the ratio is the latest volume
    itself. *)
Theorem X8_vol_ratio_floor (hist : list (PriceBar Q)) (m : MetricResult Q) :
  metrics_of_history hist = Ok (Some m) ->
  exists latest,
    hist !! (length hist - 1)%nat = Some latest
    /\ ((0 <= Volume latest)%Q -> (0 <= vol_ratio m <= Volume latest)%Q)
    /\ ((trailing_average VOL_SMA_WINDOW (Volume <$> hist) <= 1)%Q ->
        (vol_ratio m == Volume latest)%Q).
Proof. apply vol_ratio_floor. Qed.

Lemma X8_vol_ratio_floor_witness :
  exists latest,
    Example.gap_history !! 51%nat = Some latest
    /\ ((0 <= Volume latest)%Q ->
        (0 <= vol_ratio Example2.gap_metrics <= Volume latest)%Q)
    /\ ((trailing_average VOL_SMA_WINDOW (Volume <$> Example.gap_history) <= 1)%Q ->
        (vol_ratio Example2.gap_metrics == Volume latest)%Q).
Proof.
  apply (X8_vol_ratio_floor Example.gap_history Example2.gap_metrics).
  vm_compute. reflexivity.
Defined.

(** X9. With a positive previous close the gap has the sign of latest open
    minus previous close: positive for a gap up, negative for a gap down,
    zero when the session opens at the previous close. *)
Theorem X9_gap_sign (hist : list (PriceBar Q)) (m : MetricResult Q) :
  metrics_of_history hist = Ok (Some m) ->
  exists latest prev,
    hist !! (length hist - 1)%nat = Some latest
    /\ hist !! (length hist - 2)%nat = Some prev
    /\ ((0 < Close prev)%Q ->
        ((0 < gap_pct m)%Q <-> (Close prev < Open latest)%Q)
        /\ ((gap_pct m < 0)%Q <-> (Open latest < Close prev)%Q)
        /\ ((gap_pct m == 0)%Q <-> (Open latest == Close prev)%Q)).
Proof. apply gap_sign. Qed.

Lemma X9_gap_sign_witness :
  exists latest prev,
    Example.gap_history !! 51%nat = Some latest
    /\ Example.gap_history !! 50%nat = Some prev
    /\ ((0 < Close prev)%Q ->
        ((0 < gap_pct Example2.gap_metrics)%Q <-> (Close prev < Open latest)%Q)
        /\ ((gap_pct Example2.gap_metrics < 0)%Q <-> (Open latest < Close prev)%Q)
        /\ ((gap_pct Example2.gap_metrics == 0)%Q
            <-> (Open latest == Close prev)%Q)).
Proof.
  apply (X9_gap_sign Example.gap_history Example2.gap_metrics).
  vm_compute. reflexivity.
Defined.

(** X10. The overall score of a scored ticker lies between 0.07 and 4.85;
    it is never the 0.0 of a ticker without history or of a failure.  In
    exact arithmetic this holds of every scored row.  In binary64 it holds
    for every pair of metrics and every news score the scorer returns, a
    multiple of 0.5 from 0 to 10; there the lowest score is 0.07, that of a
    ticker without news and without volume (0.5 * 0.15 is below 0.075 in
    binary64). *)
Theorem X10_overall_bounds :
  (forall (W : world Q) (t : string) (m : MetricResult Q)
          (r : gmap string (value Q)),
      compute_gap_and_volume_metrics W t = Ok (Some m) ->
      try_ticker W t = Ok r ->
      exists x, r !! "overall" = Some (VFloat x)
                /\ ((7 # 100) <= x <= (485 # 100))%Q)
  /\ (forall (gap vol : B64.t) (k : nat),
        (k <= 20)%nat ->
        let x := composite_overall gap vol (flit (Z.of_nat k) 2) in
        SFleb (flit 7 100) x = true /\ SFleb x (flit 485 100) = true)
  /\ composite_overall (F:=B64.t) (flit 0 1) (flit 0 1) (flit 0 1)
     = flit 7 100.
Proof.
  split; [| split].
  - intros W t m r Hm Hr.
    destruct (try_ticker_Ok W t r Hr)
      as (hist & mo & nopt & ns & Hh & Hmo & _ & Hns & ->).
    unfold compute_gap_and_volume_metrics in Hm. rewrite Hh in Hm.
    cbn [mbind result_bind] in Hm. rewrite Hmo in Hm. injection Hm as ->.
    exists (composite_overall (gap_pct m) (vol_ratio m) ns).
    split; [apply scored_overall_field |].
    pose proof (composite_overall_bounds (gap_pct m) (vol_ratio m) ns
                  (proj1 (get_news_score_nonneg _ _ _ _ Hns))) as Hb.
    lra.
  - intros gap vol k Hk x. subst x. unfold composite_overall.
    destruct (tiers_of_distinct distinct_B64 gap vol) as [Hs _].
    cbv zeta in Hs.
    destruct Hs as [-> | [-> | [-> | ->]]];
      do 21 (destruct k as [| k]; [split; vm_compute; reflexivity |]); lia.
  - vm_compute. reflexivity.
Qed.

Lemma X10_overall_bounds_witness :
  (exists x, row_of_ticker Example.market "GAP" !! "overall" = Some (VFloat x)
             /\ ((7 # 100) <= x <= (485 # 100))%Q)
  /\ (let x := composite_overall (F:=B64.t) (flit 12 100) (flit 25 10)
                 (flit (Z.of_nat 8) 2) in
      SFleb (flit 7 100) x = true /\ SFleb x (flit 485 100) = true).
Proof.
  split.
  - apply (proj1 X10_overall_bounds Example.market "GAP" Example2.gap_metrics).
    + vm_compute. reflexivity.
    + vm_compute. reflexivity.
  - apply (proj1 (proj2 X10_overall_bounds) (flit 12 100) (flit 25 10) 8%nat).
    lia.
Defined.

(** X11. For the same metrics, a higher news score never gives a lower
    overall score. *)
Theorem X11_overall_monotone_in_news (t : string) (m : MetricResult Q)
    (ns ns' : Q) :
  (ns <= ns')%Q ->
  exists x x',
    scored_row t m ns !! "overall" = Some (VFloat x)
    /\ scored_row t m ns' !! "overall" = Some (VFloat x')
    /\ (x <= x')%Q.
Proof.
  intros Hnn. eexists. eexists.
  split; [apply scored_overall_field |].
  split; [apply scored_overall_field |].
  now apply composite_overall_mono.
Qed.

Lemma X11_overall_monotone_in_news_witness :
  exists x x',
    scored_row "GAP" Example2.gap_metrics 1%Q !! "overall" = Some (VFloat x)
    /\ scored_row "GAP" Example2.gap_metrics 4%Q !! "overall" = Some (VFloat x')
    /\ (x <= x')%Q.
Proof.
  apply (X11_overall_monotone_in_news "GAP" Example2.gap_metrics 1%Q 4%Q).
  vm_compute. discriminate.
Defined.

Lemma rows_banded (W : world Q) (tickers : list string) :
  Forall (fun r => exists b, row_band r b) (row_of_ticker W <$> tickers).
Proof.
  apply Forall_fmap, Forall_forall. intros t _. apply row_of_ticker_band.
Qed.

(** X12. In the ranked frame every row is a scored row, the row of a ticker
    without history or a failure row, and the three kinds come in this
    order: no row of a later kind stands before a row of an earlier kind. *)
Theorem X12_ranking_bands (W : world Q) (df : DataFrame Q)
    (diff : list string * list string) :
  build W = Ok (df, diff) ->
  Forall (fun r => exists b, row_band r b) (records df)
  /\ forall (i j : nat) (ri rj : gmap string (value Q)) (bi bj : nat),
       (i < j)%nat ->
       records df !! i = Some ri -> records df !! j = Some rj ->
       row_band ri bi -> row_band rj bj -> (bi <= bj)%nat.
Proof.
  intros Hb. destruct (build_Ok W df diff Hb) as (txt & _ & -> & _). split.
  - rewrite stable_sort_perm. apply rows_banded.
  - intros i j ri rj bi bj. apply sorted_bands.
Qed.

Lemma X12_ranking_bands_witness :
  Forall (fun r => exists b, row_band r b) (records Example2.market_frame)
  /\ forall (i j : nat) (ri rj : gmap string (value Q)) (bi bj : nat),
       (i < j)%nat ->
       records Example2.market_frame !! i = Some ri ->
       records Example2.market_frame !! j = Some rj ->
       row_band ri bi -> row_band rj bj -> (bi <= bj)%nat.
Proof.
  apply (X12_ranking_bands Example.market Example2.market_frame
           Example2.market_diff).
  vm_compute. reflexivity.
Defined.

(** X13. The sort is stable: rows that tie on all three keys stand in the
    ranked frame in the order of their tickers in the universe file. *)
Theorem X13_ties_keep_file_order (W : world Q) (df : DataFrame Q)
    (diff : list string * list string) :
  build W = Ok (df, diff) ->
  exists txt,
    read_file W UNIVERSE_FILE = Ok txt
    /\ forall r,
         List.filter (same_rank SORT_KEYS r) (records df)
         = List.filter (same_rank SORT_KEYS r)
             (row_of_ticker W <$> parse_tickers txt).
Proof.
  intros Hb. destruct (build_Ok W df diff Hb) as (txt & Hread & -> & _).
  exists txt. split; [exact Hread |]. intros r. apply stable_sort_stable.
Qed.

Lemma X13_ties_keep_file_order_witness :
  exists txt,
    read_file Example.market UNIVERSE_FILE = Ok txt
    /\ forall r,
         List.filter (same_rank SORT_KEYS r) (records Example2.market_frame)
         = List.filter (same_rank SORT_KEYS r)
             (row_of_ticker Example.market <$> parse_tickers txt).
Proof.
  apply (X13_ties_keep_file_order Example.market Example2.market_frame
           Example2.market_diff).
  vm_compute. reflexivity.
Defined.

(** X14. What a run comes to: an unreadable universe file makes [build]
    raise that error; with a readable file [build] returns a frame and a
    diff as soon as one ticker is processed without an exception; with an
    empty universe it raises the [KeyError] of [overall], and when every
    ticker fails that of [fresh_catalyst_score]. *)
Theorem X14_build_outcome (W : world Q) :
  (forall e, read_file W UNIVERSE_FILE = Raise e -> build W = Raise e)
  /\ (forall txt t r,
        read_file W UNIVERSE_FILE = Ok txt ->
        t ∈ parse_tickers txt -> try_ticker W t = Ok r ->
        exists df diff, build W = Ok (df, diff))
  /\ (forall txt,
        read_file W UNIVERSE_FILE = Ok txt -> parse_tickers txt = [] ->
        build W = Raise "'overall'")
  /\ (forall txt,
        read_file W UNIVERSE_FILE = Ok txt -> parse_tickers txt <> [] ->
        (forall t, t ∈ parse_tickers txt -> exists e, try_ticker W t = Raise e) ->
        build W = Raise "'fresh_catalyst_score'").
Proof.
  split; [| split; [| split]].
  - intros e Hread. unfold build, load_tickers. now rewrite Hread.
  - intros txt t r Hread Hin Ht. unfold build, load_tickers.
    rewrite Hread. cbn [mbind result_bind].
    rewrite build_rows_map, (sort_rows_Ok W _ t r Hin Ht).
    cbn [mbind result_bind]. rewrite (compute_diff_Ok W txt Hread).
    cbn [mbind result_bind]. eauto.
  - intros txt Hread Hnil. unfold build, load_tickers.
    rewrite Hread. cbn [mbind result_bind].
    rewrite build_rows_map, Hnil. reflexivity.
  - intros txt Hread Hne Hall. unfold build, load_tickers.
    rewrite Hread. cbn [mbind result_bind].
    rewrite build_rows_map, (sort_rows_all_failed W _ Hne Hall). reflexivity.
Qed.

Lemma X14_build_outcome_witness :
  build Example2.no_file = Raise "No such file or directory"
  /\ (exists df diff, build Example.market = Ok (df, diff))
  /\ build Example2.empty_file = Raise "'overall'"
  /\ build Example2.outage = Raise "'fresh_catalyst_score'".
Proof.
  split; [| split; [| split]].
  - apply (proj1 (X14_build_outcome Example2.no_file)). reflexivity.
  - apply (proj1 (proj2 (X14_build_outcome Example.market))
             "GAP,THIN,DOWN" "THIN" (insufficient_row "THIN")).
    + reflexivity.
    + vm_compute. right. left.
    + reflexivity.
  - apply (proj1 (proj2 (proj2 (X14_build_outcome Example2.empty_file)))
             EmptyString); reflexivity.
  - apply (proj2 (proj2 (proj2 (X14_build_outcome Example2.outage)))
             "AAPL,MSFT").
    + reflexivity.
    + vm_compute. discriminate.
    + intros t _. exists "connection refused". reflexivity.
Defined.

(** X15. The ranked frame has one row for each ticker of the universe file,
    repetitions included: its [ticker] column is a rearrangement of the list
    that was loaded. *)
Theorem X15_one_row_per_ticker (W : world Q) (df : DataFrame Q)
    (diff : list string * list string) :
  build W = Ok (df, diff) ->
  exists txt,
    read_file W UNIVERSE_FILE = Ok txt
    /\ ticker_column (records df)
       ≡ₚ (fun t => Some (VStr t)) <$> parse_tickers txt.
Proof.
  intros Hb. destruct (build_Ok W df diff Hb) as (txt & Hread & -> & _).
  exists txt. split; [exact Hread |].
  rewrite <- (ticker_column_rows W). unfold ticker_column.
  apply fmap_Permutation, stable_sort_perm.
Qed.

Lemma X15_one_row_per_ticker_witness :
  exists txt,
    read_file Example.market UNIVERSE_FILE = Ok txt
    /\ ticker_column (records Example2.market_frame)
       ≡ₚ (fun t => Some (VStr t)) <$> parse_tickers txt.
Proof.
  apply (X15_one_row_per_ticker Example.market Example2.market_frame
           Example2.market_diff).
  vm_compute. reflexivity.
Defined.

(** X16. The diff takes the previous universe to the current one: the
    previous tickers without the removed ones, together with the added
    ones, are the current tickers; no ticker is both added and removed; and
    when the two universes hold the same tickers, in whatever order and with
    whatever repetitions, both lists are empty. *)
Theorem X16_diff_reconstructs {F : Type} `{PyFloat F} (W : world F)
    (added removed : list string) :
  compute_diff W = Ok (added, removed) ->
  exists txt,
    read_file W UNIVERSE_FILE = Ok txt
    /\ let cur : gset string := list_to_set (parse_tickers txt) in
       let prev : gset string :=
         list_to_set (parse_tickers (popen_read W GIT_SHOW)) in
       (prev ∖ list_to_set removed) ∪ list_to_set added = cur
       /\ (forall x, x ∈ added -> x ∉ removed)
       /\ (cur = prev -> added = [] /\ removed = []).
Proof.
  unfold compute_diff, load_tickers. intros Hd.
  destruct (read_file W UNIVERSE_FILE) as [txt | e]; [| discriminate Hd].
  cbn [mbind result_bind] in Hd. rewrite previous_tokens in Hd.
  injection Hd as <- <-. exists txt. split; [reflexivity |].
  cbv zeta.
  set (cur := list_to_set (parse_tickers txt) : gset string).
  set (prev := list_to_set (parse_tickers (popen_read W GIT_SHOW)) : gset string).
  split; [| split].
  - apply set_eq. intros x.
    rewrite elem_of_union, elem_of_difference, !elem_of_list_to_set,
      !elem_of_sorted, !elem_of_difference.
    destruct (decide (x ∈ cur)), (decide (x ∈ prev)); tauto.
  - intros x. rewrite !elem_of_sorted, !elem_of_difference. tauto.
  - intros ->. split.
    + replace (prev ∖ prev) with (∅ : gset string); [apply sorted_empty |].
      apply set_eq. intros x. rewrite elem_of_difference.
      split; [intros Hx; now apply not_elem_of_empty in Hx | tauto].
    + replace (prev ∖ prev) with (∅ : gset string); [apply sorted_empty |].
      apply set_eq. intros x. rewrite elem_of_difference.
      split; [intros Hx; now apply not_elem_of_empty in Hx | tauto].
Qed.

Lemma X16_diff_reconstructs_witness :
  exists txt,
    read_file Example.diff_world UNIVERSE_FILE = Ok txt
    /\ let cur : gset string := list_to_set (parse_tickers txt) in
       let prev : gset string :=
         list_to_set (parse_tickers (popen_read Example.diff_world GIT_SHOW)) in
       (prev ∖ list_to_set [ "A" ]) ∪ list_to_set [ "D" ] = cur
       /\ (forall x, x ∈ [ "D" ] -> x ∉ [ "A" ])
       /\ (cur = prev -> [ "D" ] = [] /\ [ "A" ] = []).
Proof.
  apply (X16_diff_reconstructs Example.diff_world [ "D" ] [ "A" ]).
  vm_compute. reflexivity.
Defined.

Lemma contribution_of_timestamp (fromiso : string -> option datetime)
    (n : NewsItem Q) (since d : datetime) :
  parse_ts fromiso (py_or (providerPublishTime n) (published n)) = Some d ->
  contribution fromiso n since
  = if (instant d <? instant since)%Z then 0%Q
    else Qmin 3 ((1 # 2) + inject_Z (Z.of_nat (keyword_count (title_of n)))).
Proof. intros Hts. unfold contribution. now rewrite Hts. Qed.

Lemma integer_timestamp (fromiso : string -> option datetime) (z : Z)
    (other : pyval Q) (headline : option string) :
  z <> 0 -> -62135596800 <= z <= 253402300799 ->
  parse_ts fromiso
    (py_or (providerPublishTime {| providerPublishTime := PInt z;
                                   published := other; title := headline |})
           (published {| providerPublishTime := PInt z;
                         published := other; title := headline |}))
  = Some {| instant := z * 1000000; aware := false |}.
Proof.
  intros Hz Hrange. unfold py_or. cbn [providerPublishTime published truthy].
  assert (Hnz : (z =? 0)%Z = false) by now apply Z.eqb_neq.
  rewrite Hnz. cbn [negb parse_ts]. unfold utcfromtimestamp.
  assert (Hin : ((-62135596800 <=? z) && (z <=? 253402300799))%Z = true).
  { apply andb_true_iff. split; apply Z.leb_le; lia. }
  now rewrite Hin.
Qed.

Lemma Qmin_cap (c : Q) : (c <= 3)%Q -> (Qmin 10 (c + 0) == c)%Q.
Proof. intros Hc. rewrite Q.min_r by lra. ring. Qed.

(** X17. The cutoff is 90 days before now and belongs to the window: a
    single item with an integer timestamp [z] other than 0, within the
    years 1 to 9999, scores 0 when [z] is earlier than now minus 90 days and
    min(3, 0.5 + keywords) from that instant on. *)
Theorem X17_ninety_day_window (W : world Q) (z : Z) (other : pyval Q)
    (headline : option string) :
  z <> 0 -> -62135596800 <= z <= 253402300799 ->
  let n := {| providerPublishTime := PInt z; published := other;
              title := headline |} in
  exists s,
    get_news_score (fromisoformat W) (Some [ n ]) (since_ts W) = Ok s
    /\ (s == if (z * 1000000 <? utcnow W - 90 * 86400000000)%Z then 0
             else Qmin 3 ((1 # 2) + inject_Z (Z.of_nat (keyword_count (title_of n)))))%Q.
Proof.
  intros Hz Hrange n.
  pose proof (integer_timestamp (fromisoformat W) z other headline Hz Hrange)
    as Hts.
  fold n in Hts.
  destruct (get_news_score_sum (fromisoformat W) [ n ] (since_ts W))
    as (s & Hs & Hsum).
  { constructor; [| constructor]. intros d Hd. rewrite Hts in Hd.
    now injection Hd as <-. }
  exists s. split; [exact Hs |]. rewrite Hsum.
  change (foldr Qplus 0%Q
            ((fun n => contribution (fromisoformat W) n (since_ts W)) <$> [ n ]))
    with (contribution (fromisoformat W) n (since_ts W) + 0)%Q.
  rewrite (contribution_of_timestamp _ _ _ _ Hts).
  change (instant {| instant := z * 1000000; aware := false |}
          <? instant (since_ts W))%Z
    with (z * 1000000 <? utcnow W - 90 * 86400000000)%Z.
  destruct (z * 1000000 <? utcnow W - 90 * 86400000000)%Z.
  - apply Qmin_cap. lra.
  - apply Qmin_cap, Q.le_min_l.
Qed.

Lemma X17_ninety_day_window_witness :
  let n := {| providerPublishTime := PInt 1717000000; published := PNone;
              title := Some "Acme earnings" |} in
  exists s,
    get_news_score (fromisoformat Example.market) (Some [ n ])
      (since_ts Example.market) = Ok s
    /\ (s == if (1717000000 * 1000000
                 <? utcnow Example.market - 90 * 86400000000)%Z
             then 0
             else Qmin 3 ((1 # 2)
                          + inject_Z (Z.of_nat (keyword_count (title_of n)))))%Q.
Proof.
  apply (X17_ninety_day_window Example.market 1717000000 PNone
           (Some "Acme earnings")); lia.
Defined.
